(** * Character-level RNN name generator (WEEK05/RNN-task.py)

    A shallow embedding of the vocabulary, the batcher [to_matrix], the
    unrolled training graph and the sampling loop [generate_sample], together
    with the properties the specification states about them.

    Conventions.
    - Python exceptions are values of [py_error]; a computation that may raise
      has type [result A].
    - [token_to_id] is a Python dict and is modelled as a [gmap]; [tokens] is a
      Python list indexed with [!!].
    - Matrix entries are integers ([Z]).  NumPy 1.x widens an [int32] array
      when a scalar that does not fit is added, so no wrap-around occurs in
      [np.zeros(...) + pad].
    - Floating point values (embeddings, hidden states, probabilities, losses)
      are kept abstract: the Keras layers and the TensorFlow reductions are
      parameters of the development. *)

From stdpp Require Import gmap strings list.
From Stdlib Require Import ZArith Ascii.

Local Open Scope Z_scope.
Local Open Scope nat_scope.

(** ** Exceptions and the error monad *)

Inductive py_error : Type :=
  | KeyError
  | IndexError
  | TypeError
  | ValueError.

#[global] Instance py_error_eq_dec : EqDecision py_error.
Proof. solve_decision. Defined.

(** [KeyError] and [IndexError] are the subclasses of Python's [LookupError]. *)
Definition is_LookupError (e : py_error) : bool :=
  match e with
  | KeyError | IndexError => true
  | TypeError | ValueError => false
  end.

Inductive result (A : Type) : Type :=
  | Ok (a : A)
  | Raise (e : py_error).
Arguments Ok {A} a.
Arguments Raise {A} e.

#[global] Instance result_ret : MRet result := fun A a => Ok a.
#[global] Instance result_bind : MBind result := fun A B f m =>
  match m with
  | Ok a => f a
  | Raise e => Raise e
  end.
#[global] Instance result_fmap : FMap result := fun A B f m =>
  match m with
  | Ok a => Ok (f a)
  | Raise e => Raise e
  end.

(** [for x in xs: s = body(s, x)], where the body may raise. *)
Fixpoint for_in {S X : Type} (xs : list X) (body : S -> X -> result S) (s : S)
  : result S :=
  match xs with
  | [] => Ok s
  | x :: xs' => s' ← body s x; for_in xs' body s'
  end.

(** [l[i]] for a non-negative index. *)
Definition py_index {A : Type} (l : list A) (i : nat) : result A :=
  match l !! i with
  | Some a => Ok a
  | None => Raise IndexError
  end.

(** [max(l)]: raises [ValueError] on an empty sequence. *)
Definition py_max (l : list nat) : result nat :=
  match l with
  | [] => Raise ValueError
  | _ :: _ => Ok (max_list l)
  end.

(** ** Reserved symbols (lines 35-40) *)

Definition start_token : ascii := " "%char.
Definition pad_token : ascii := "#"%char.

(** Iterating over a Python string yields its characters. *)
Definition chars (s : string) : list ascii := String.list_ascii_of_string s.
Definition join (l : list ascii) : string := String.string_of_list_ascii l.
Definition len (s : string) : nat := String.length s.

(** ** Vocabulary (lines 72-95) *)

(** [tokens = list(set(''.join(names)))]: a duplicate-free enumeration, in an
    order chosen by the interpreter, of the characters of the corpus. *)
Definition is_vocabulary_of (names : list string) (tokens : list ascii) : Prop :=
  NoDup tokens ∧ ∀ c, c ∈ tokens ↔ ∃ name, name ∈ names ∧ c ∈ chars name.

(** The order of first occurrence is one such enumeration. *)
Definition tokens_in_order (names : list string) : list ascii :=
  remove_dups (mbind chars names).

(** A two-dimensional integer array. *)
Record matrix : Type := Matrix { ncols : nat; mrows : list (list Z) }.

Definition nrows (m : matrix) : nat := length (mrows m).

Definition wf_matrix (m : matrix) : Prop :=
  Forall (fun row => length row = ncols m) (mrows m).

(** [np.zeros([n, w], dtype) + pad]; a negative dimension is a [ValueError]. *)
Definition np_zeros_plus (n : nat) (w : Z) (pad : Z) : result matrix :=
  if decide (w < 0)%Z then Raise ValueError
  else Ok (Matrix (Z.to_nat w) (replicate n (replicate (Z.to_nat w) pad))).

(** Conversion of a Python list to an integer array: [None] is not a number. *)
Fixpoint as_int_array (v : list (option nat)) : result (list Z) :=
  match v with
  | [] => Ok []
  | Some i :: v' => (fun l => Z.of_nat i :: l) <$> as_int_array v'
  | None :: _ => Raise TypeError
  end.

(** [m[i, :len(v)] = v] for a Python list [v], as NumPy copies a sequence
    into an array (the NumPy 1.x releases that TensorFlow 1.x runs on): the
    slice is clipped to the row width; the length of the list is compared
    with the length of the slice first, and a list that has neither that
    length nor a single element is a [ValueError]; then the elements are
    converted one by one as they are stored ([TypeError] on [None]), a single
    element being stored in every entry of the slice. *)
Definition np_assign_prefix (m : matrix) (i : nat) (v : list (option nat))
  : result matrix :=
  row ← py_index (mrows m) i;
  let k := length v in
  let slice := k `min` ncols m in
  if decide (k = slice) then
    vals ← as_int_array v;
    Ok (Matrix (ncols m) (<[i := vals ++ drop k row]> (mrows m)))
  else
    match v with
    | [x] =>
        vals ← as_int_array (replicate slice x);
        Ok (Matrix (ncols m) (<[i := vals ++ drop slice row]> (mrows m)))
    | _ => Raise ValueError
    end.

Section Vocabulary.

Variable tokens : list ascii.

Definition n_tokens : nat := length tokens.

(** [token_to_id[tokens[i]] = i] *)
Definition set_token_id (d : gmap ascii nat) (i : nat) : gmap ascii nat :=
  match tokens !! i with
  | Some c => <[c := i]> d
  | None => d
  end.

(** [token_to_id = {}; for i in range(n_tokens): token_to_id[tokens[i]] = i] *)
Definition token_to_id : gmap ascii nat :=
  foldl set_token_id ∅ (seq 0 n_tokens).

Definition in_vocabulary (name : string) : Prop :=
  Forall (fun c => c ∈ tokens) (chars name).

(** [list(map(token_to_id.get, name))]: [dict.get] yields [None] for a
    missing key. *)
Definition map_get (name : string) : list (option nat) :=
  (fun c => token_to_id !! c) <$> chars name.

(** [to_matrix(names, max_len, pad)] (lines 101-111).  [max_len or ...]
    takes the right operand when [max_len] is [None] or [0]. *)
Definition to_matrix (names : list string) (max_len : option Z) (pad : Z)
  : result matrix :=
  max_len' ← match max_len with
              | Some n =>
                  if decide (n = 0%Z) then Z.of_nat <$> py_max (len <$> names)
                  else Ok n
              | None => Z.of_nat <$> py_max (len <$> names)
              end;
  names_ix ← np_zeros_plus (length names) max_len' pad;
  for_in (seq 0 (length names))
         (fun names_ix i =>
            name ← py_index names i;
            let name_ix := map_get name in
            np_assign_prefix names_ix i name_ix)
         names_ix.

End Vocabulary.

#[global] Instance in_vocabulary_dec tokens name :
  Decision (in_vocabulary tokens name).
Proof. unfold in_vocabulary. apply _. Defined.

(** The id-encoding of a sequence: the ids [token_to_id] holds for its
    symbols, in order. *)
Definition encode (tokens : list ascii) (name : string) : list nat :=
  omap (fun c => token_to_id tokens !! c) (chars name).

(** What the loop body of [to_matrix] leaves in a row of width [w] that held
    [pad] everywhere: the outcome of [names_ix[i, :len(name_ix)] = name_ix]
    seen from that row alone. *)
Definition assigned_row (tokens : list ascii) (w : nat) (pad : Z) (name : string)
  : result (list Z) :=
  let v := map_get tokens name in
  let k := length v in
  let slice := k `min` w in
  if decide (k = slice) then
    vals ← as_int_array v;
    Ok (vals ++ replicate (w - k) pad)
  else
    match v with
    | [x] =>
        vals ← as_int_array (replicate slice x);
        Ok (vals ++ replicate (w - slice) pad)
    | _ => Raise ValueError
    end.

(** ** Corpus (lines 42-58) *)

(** [names = [start_token + name for name in names]] *)
Definition with_start_token (lines : list string) : list string :=
  String start_token <$> lines.

(** [max(map(len, names))] of a non-empty list, as in [to_matrix] and in
    [MAX_LENGTH = max(map(len, names))]. *)
Definition longest (names : list string) : nat :=
  max_list (len <$> names).

(** ** TensorFlow array operations on nested lists *)

(** [tf.transpose(tf.stack(xss), [1, 0, 2])] for a list of [T] tensors of
    shape [[R, n]]: the result has shape [[R, T, n]]. *)
Fixpoint tf_transpose_102 {A : Type} (R : nat) (xss : list (list A))
  : list (list A) :=
  match xss with
  | [] => replicate R []
  | xs :: xss' => zip_with cons xs (tf_transpose_102 R xss')
  end.

(** [l[:-1]] *)
Definition but_last {A : Type} (l : list A) : list A :=
  take (length l - 1) l.

(** [input_sequence[:, t]]; [t] is within the width of the matrix wherever
    it is used. *)
Definition column (t : nat) (input : matrix) : list Z :=
  (fun row => nth t row 0%Z) <$> mrows input.

(** ** The recurrent network (lines 144-256) *)

Definition rnn_num_units : nat := 64.
Definition embedding_size : nat := 16.

Section Network.

(** [float32] values, with the constants [0.0] and [1.0]. *)
Context {scalar : Type}.
Variables fzero fone : scalar.
Local Abbreviation vector := (list scalar).

(** The vocabulary, and the width of the training placeholder. *)
Variable tokens : list ascii.
Variable MAX_LENGTH : nat.
Local Abbreviation n_tokens := (n_tokens tokens).
Local Abbreviation token_to_id := (token_to_id tokens).

(** The Keras layers [Embedding(n_tokens, embedding_size)],
    [Dense(rnn_num_units, activation='relu')] and
    [Dense(n_tokens, activation='softmax')], each applied to one row of a
    batch, with the weights they hold when they are applied. *)
Variable embed_x : Z -> vector.
Variable get_h_next : vector -> vector.
Variable get_probas : vector -> vector.

(** [keras.objectives.categorical_crossentropy(target, output)] on one row
    and [tf.reduce_mean] of a rank-1 tensor. *)
Variable categorical_crossentropy : vector -> vector -> scalar.
Variable tf_reduce_mean : list scalar -> scalar.

(** [rnn_one_step(x_t, h_t)] (lines 168-190) on a batch: [x_t] holds one id
    per row and [h_t] one hidden state per row. *)
Definition rnn_one_step (x_t : list Z) (h_t : list vector)
  : list vector * list vector :=
  let x_t_emb := embed_x <$> x_t in
  let x_and_h := zip_with app x_t_emb h_t in
  let h_next := get_h_next <$> x_and_h in
  let output_probas := get_probas <$> h_next in
  (output_probas, h_next).

(** [tf.zeros([batch_size, rnn_num_units])] *)
Definition tf_zeros (batch_size : nat) : list vector :=
  replicate batch_size (replicate rnn_num_units fzero).

(** [tf.one_hot(i, depth)] *)
Definition tf_one_hot (depth : nat) (i : Z) : vector :=
  (fun j => if decide (Z.of_nat j = i) then fone else fzero) <$> seq 0 depth.

(** Body of the unrolling loop (lines 209-214); the loop state is
    [(predicted_probas, h_prev)]. *)
Definition unroll_body (input_sequence : matrix)
    (st : list (list vector) * list vector) (t : nat)
  : list (list vector) * list vector :=
  let x_t := column t input_sequence in
  let '(probas_next, h_next) := rnn_one_step x_t st.2 in
  (st.1 ++ [probas_next], h_next).

(** [for t in range(steps): ...] from the zero hidden state. *)
Definition unroll (steps : nat) (input_sequence : matrix)
  : list (list vector) * list vector :=
  let batch_size := nrows input_sequence in
  foldl (unroll_body input_sequence) ([], tf_zeros batch_size) (seq 0 steps).

(** Lines 206-220: unroll over all [MAX_LENGTH] columns, stack, transpose to
    [[batch, time, n_tokens]] and drop the last time step. *)
Definition predicted_probas (input_sequence : matrix) : list (list vector) :=
  let batch_size := nrows input_sequence in
  let predicted_probas := (unroll MAX_LENGTH input_sequence).1 in
  let predicted_probas := tf_transpose_102 batch_size predicted_probas in
  but_last <$> predicted_probas.

(** [tf.reshape(predicted_probas, [-1, n_tokens])]: the two outer axes are
    merged, the distributions are left whole. *)
Definition predictions_matrix (input_sequence : matrix) : list vector :=
  concat (predicted_probas input_sequence).

(** [tf.one_hot(tf.reshape(input_sequence[:, 1:], [-1]), n_tokens)] *)
Definition answers_matrix (input_sequence : matrix) : list vector :=
  tf_one_hot n_tokens <$> concat (drop 1 <$> mrows input_sequence).

(** Line 254. *)
Definition loss (input_sequence : matrix) : scalar :=
  tf_reduce_mean
    (zip_with categorical_crossentropy
              (answers_matrix input_sequence)
              (predictions_matrix input_sequence)).

(** [s.run([loss, optimize], {input_sequence: batch})] (line 274).  The
    session refuses a fed value whose shape is incompatible with the
    placeholder's [(None, MAX_LENGTH)] with a [ValueError]; otherwise the
    loss is evaluated on the weights the layers hold at the call (the Adam
    update of the same run is not part of the returned value). *)
Definition train_step (batch : matrix) : result scalar :=
  if decide (ncols batch = MAX_LENGTH) then Ok (loss batch)
  else Raise ValueError.

(** *** The trainer as the specification words it *)

(** One application of the transition function to a single sequence. *)
Definition transition (x : Z) (h : vector) : vector * vector :=
  let h' := get_h_next (embed_x x ++ h) in
  (get_probas h', h').

(** Hidden state of a row before its column [t] is read. *)
Fixpoint hidden_before (row : list Z) (t : nat) : vector :=
  match t with
  | 0 => replicate rnn_num_units fzero
  | S t' => (transition (nth t' row 0%Z) (hidden_before row t')).2
  end.

(** Distribution predicted at step [t] of a row. *)
Definition predicted_at (row : list Z) (t : nat) : vector :=
  (transition (nth t row 0%Z) (hidden_before row t)).1.

(** Cross-entropy at position [(row, t)]: prediction of step [t] against
    the one-hot encoding of the token in column [t + 1]. *)
Definition position_loss (row : list Z) (t : nat) : scalar :=
  categorical_crossentropy (tf_one_hot n_tokens (nth (S t) row 0%Z))
                           (predicted_at row t).

(** All positions of a batch, row by row, steps [0 .. MAX_LENGTH-2]. *)
Definition spec_position_losses (batch : matrix) : list scalar :=
  row ← mrows batch; position_loss row <$> seq 0 (MAX_LENGTH - 1).

(** Unrolling only the steps [0 .. MAX_LENGTH-2] and keeping every
    collected distribution. *)
Definition spec_predicted_probas (input_sequence : matrix)
  : list (list vector) :=
  let batch_size := nrows input_sequence in
  tf_transpose_102 batch_size (unroll (MAX_LENGTH - 1) input_sequence).1.

(** *** Sampling (lines 293-324) *)

(** [np.random]: the generator state and [np.random.choice(n, p=p)], which
    returns an integer of [range(n)] and the next generator state.  The
    softmax output [p] is taken to be a distribution over [range(n)] that the
    call accepts. *)
Context {rng : Type}.
Variable random_choice : rng -> nat -> vector -> nat * rng.

(** [np.random.choice(n, p=p)] returns an element of [range(n)]. *)
Definition choice_in_range : Prop :=
  forall g n p, 0 < n -> (random_choice g n p).1 < n.

(** What the sampler reads and writes: the TensorFlow variable [h_t],
    NumPy's generator, and a count of the calls to [np.random.choice] made
    so far (kept for the statements; the program does not read it). *)
Record session : Type := Session {
  h_t : list vector;
  np_random : rng;
  draws : nat
}.

(** [token_to_id[token]]: a missing key is a [KeyError]. *)
Definition token_to_id_getitem (token : ascii) : result nat :=
  match token_to_id !! token with
  | Some i => Ok i
  | None => Raise KeyError
  end.

(** [l[-1]] *)
Definition py_last {A : Type} (l : list A) : result A :=
  match last l with
  | Some a => Ok a
  | None => Raise IndexError
  end.

(** [s.run(tf.assign(h_t, next_h), {x_t: [ix]})] *)
Definition feed_step (h : list vector) (ix : nat) : list vector :=
  (rnn_one_step [Z.of_nat ix] h).2.

(** Body of the generation loop (lines 321-322); the loop state is
    [(x_sequence, session)]. *)
Definition generate_body (st : list nat * session) (_ : nat)
  : result (list nat * session) :=
  let '(x_sequence, s) := st in
  x_last ← py_last x_sequence;
  let '(x_probs, next_h) := rnn_one_step [Z.of_nat x_last] (h_t s) in
  p ← py_index x_probs 0;
  let '(ix, g) := random_choice (np_random s) n_tokens p in
  Ok (x_sequence ++ [ix], Session next_h g (S (draws s))).

(** [[tokens[ix] for ix in x_sequence if tokens[ix] != pad_token]] *)
Fixpoint decode_without_pad (x_sequence : list nat) : result (list ascii) :=
  match x_sequence with
  | [] => Ok []
  | ix :: rest =>
      c ← py_index tokens ix;
      out ← decode_without_pad rest;
      Ok (if decide (c = pad_token) then out else c :: out)
  end.

Definition generate_sample (seed_phrase : string) (max_length : Z) (s : session)
  : result (string * session) :=
  x_sequence ← mapM token_to_id_getitem (chars seed_phrase);
  (* s.run(tf.assign(h_t, h_t.initial_value)) *)
  let h := tf_zeros 1 in
  (* for ix in x_sequence[:-1] *)
  let h := foldl feed_step h (but_last x_sequence) in
  let s := Session h (np_random s) (draws s) in
  (* for _ in range(max_length - len(seed_phrase)) *)
  let n := Z.to_nat (max_length - Z.of_nat (len seed_phrase)) in
  '(x_sequence, s) ← for_in (seq 0 n) generate_body (x_sequence, s);
  out ← decode_without_pad x_sequence;
  Ok (join out, s).

End Network.

(** ** A small instance, for running the definitions

    Integer-valued stand-ins for the layers, the loss and the sampler, and a
    corpus of 32 names over 53 symbols that passes the script's assertion
    [50 < n_tokens < 60]. *)

Module Toy.

Definition embed_x (i : Z) : list Z := replicate embedding_size i.

Definition get_h_next (v : list Z) : list Z :=
  replicate rnn_num_units (foldr Z.add 0%Z v).

Definition get_probas (n : nat) (h : list Z) : list Z := replicate n 1%Z.

Definition categorical_crossentropy (target output : list Z) : Z :=
  foldr Z.add 0%Z (zip_with Z.mul target output).

Definition tf_reduce_mean (l : list Z) : Z :=
  (foldr Z.add 0 l `div` Z.of_nat (length l))%Z.

(** The generator state counts the draws; the draw is its value modulo [n]. *)
Definition random_choice (g : nat) (n : nat) (p : list Z) : nat * nat :=
  (g `mod` n, S g).

Definition lines : list string :=
  ["Aa"; "Bb"; "Cc"; "Dd"; "Ee"; "Ff"; "Gg"; "Hh"; "Ii"; "Jj"; "Kk"; "Ll";
   "Mm"; "Nn"; "Oo"; "Pp"; "Qq"; "Rr"; "Ss"; "Tt"; "Uu"; "Vv"; "Ww"; "Xx";
   "Yy"; "Zz"; "Al"; "Bo"; "Cy"; "Di"; "Ed"; "Florence"].

Definition names : list string := with_start_token lines.

Definition tokens : list ascii := tokens_in_order names.

Definition MAX_LENGTH : nat := longest names.

End Toy.

(** ** Reading the corpus (lines 42-44) *)

Definition newline : ascii := "010"%char.

(** [cs.split(sep)] on the characters of a string: the pieces between the
    occurrences of [sep]; a string without [sep] is its own single piece. *)
Fixpoint split_chars (sep : ascii) (cs : list ascii) : list (list ascii) :=
  match cs with
  | [] => [[]]
  | c :: cs' =>
      if decide (c = sep) then [] :: split_chars sep cs'
      else
        match split_chars sep cs' with
        | piece :: pieces => (c :: piece) :: pieces
        | [] => [[c]]
        end
  end.

Definition py_split (sep : ascii) (s : string) : list string :=
  join <$> split_chars sep (chars s).

(** [sep.join(pieces)] on character lists. *)
Fixpoint join_chars (sep : ascii) (pieces : list (list ascii)) : list ascii :=
  match pieces with
  | [] => []
  | [piece] => piece
  | piece :: pieces' => piece ++ sep :: join_chars sep pieces'
  end.

(** [names = f.read()[:-1].split('\n')] followed by
    [names = [start_token + name for name in names]]; [content] is what
    [f.read()] returns. *)
Definition read_names (content : string) : list string :=
  let names := py_split newline (join (but_last (chars content))) in
  with_start_token names.

(** ** Sampling, seen from the trainer; repeated sampling *)

Section Sampling.

Context {scalar rng : Type}.
Variable fzero : scalar.
Variable tokens : list ascii.
Variable embed_x : Z -> list scalar.
Variables get_h_next get_probas : list scalar -> list scalar.
Variable random_choice : rng -> nat -> list scalar -> nat * rng.

(** Drawing [n] more ids after [x_sequence], each from the distribution the
    per-row recurrence of the trainer predicts at the last position of the
    sequence drawn so far. *)
Fixpoint autoregressive_sample (n : nat) (x_sequence : list nat) (g : rng)
  : list nat * rng :=
  match n with
  | 0 => (x_sequence, g)
  | S n' =>
      let row := Z.of_nat <$> x_sequence in
      let p := predicted_at fzero embed_x get_h_next get_probas row
                            (length x_sequence - 1) in
      let '(ix, g') := random_choice g (n_tokens tokens) p in
      autoregressive_sample n' (x_sequence ++ [ix]) g'
  end.

(** [[generate_sample(seed_phrase, max_length) for i in range(n)]]
    (line 357; the loops of lines 331-340 make the same calls). *)
Fixpoint generate_samples (n : nat) (seed_phrase : string) (max_length : Z)
    (s : session) : result (list string * session) :=
  match n with
  | 0 => Ok ([], s)
  | S n' =>
      '(sample, s) ← generate_sample fzero tokens embed_x get_h_next get_probas
                                      random_choice seed_phrase max_length s;
      '(samples, s) ← generate_samples n' seed_phrase max_length s;
      Ok (sample :: samples, s)
  end.

End Sampling.

(** ** The training loop (lines 267-276) *)

Definition batch_size : nat := 32.

Section TrainingLoop.

Context {scalar weights prng : Type}.
Variables fzero fone : scalar.

(** The corpus with its start symbols, its vocabulary and [MAX_LENGTH]. *)
Variable names : list string.
Variable tokens : list ascii.
Variable MAX_LENGTH : nat.

(** The layers as functions of the values of the TensorFlow variables (the
    weights, together with the slots of the optimizer). *)
Variable embed_x : weights -> Z -> list scalar.
Variables get_h_next get_probas : weights -> list scalar -> list scalar.
Variable categorical_crossentropy : list scalar -> list scalar -> scalar.
Variable tf_reduce_mean : list scalar -> scalar.

(** The [optimize] operation run on a batch: the variables after one Adam
    step. *)
Variable optimize : weights -> matrix -> weights.

(** [random.sample(population, k)] for [k <= len(population)]: the chosen
    elements and the next state of Python's generator. *)
Variable random_sample : prng -> list string -> nat -> list string * prng.

Definition sample_from_population : Prop :=
  forall g population k, k <= length population ->
    length (random_sample g population k).1 = k
    /\ Forall (fun x => x ∈ population) (random_sample g population k).1.

(** [sample(population, k)]: a sample larger than the population is a
    [ValueError]. *)
Definition py_sample (g : prng) (population : list string) (k : nat)
  : result (list string * prng) :=
  if decide (k <= length population) then Ok (random_sample g population k)
  else Raise ValueError.

Record training_state : Type := TrainingState {
  variables : weights;
  history : list scalar;
  py_random : prng
}.

(** Body of [for i in range(1000)] (lines 273-276); the plot of every
    hundredth iteration is left out. *)
Definition training_body (st : training_state) (i : nat)
  : result training_state :=
  '(chosen, g) ← py_sample (py_random st) names batch_size;
  batch ← to_matrix tokens chosen (Some (Z.of_nat MAX_LENGTH)) 0;
  let w := variables st in
  loss_i ← train_step fzero fone tokens MAX_LENGTH (embed_x w) (get_h_next w)
                      (get_probas w) categorical_crossentropy tf_reduce_mean
                      batch;
  Ok (TrainingState (optimize w batch) (history st ++ [loss_i]) g).

(** [history = []; for i in range(iterations): ...] from the initialised
    variables [w0]; the script runs [1000] iterations. *)
Definition training_loop (iterations : nat) (w0 : weights) (g : prng)
  : result training_state :=
  for_in (seq 0 iterations) training_body (TrainingState w0 [] g).

End TrainingLoop.

(** A stand-in for [random.sample], for running the loop: the first [k]
    elements of the population. *)
Definition first_k_sample (g : nat) (population : list string) (k : nat)
  : list string * nat :=
  (take k population, S g).

(** [l[::k]] for a positive step [k]: the elements at the indices
    [0, k, 2k, ...]. *)
Definition py_every {A : Type} (k : nat) (l : list A) : list A :=
  omap (fun i => l !! (i * k)) (seq 0 (length l)).

(** * Properties *)

(** ** The dictionary [token_to_id] *)

Section VocabularyFacts.

Variable tokens : list ascii.
Local Abbreviation token_to_id := (token_to_id tokens).

Local Abbreviation set_token_id := (set_token_id tokens).

Lemma token_ids_prefix_sound k c i :
  foldl set_token_id ∅ (seq 0 k) !! c = Some i → i < k ∧ tokens !! i = Some c.
Proof.
  induction k as [|k IH].
  - simpl. by rewrite lookup_empty.
  - rewrite seq_S, foldl_app. simpl. unfold set_token_id at 1.
    destruct (tokens !! k) as [c'|] eqn:Hk.
    + rewrite lookup_insert. case_decide as Hc.
      * intros [= <-]. subst c'. split; [lia | done].
      * intros H. apply IH in H as [??]. split; [lia | done].
    + intros H. apply IH in H as [??]. split; [lia | done].
Qed.

Lemma token_ids_prefix_complete k c i :
  i < k → tokens !! i = Some c → is_Some (foldl set_token_id ∅ (seq 0 k) !! c).
Proof.
  induction k as [|k IH]; [lia|].
  intros Hi Hc. rewrite seq_S, foldl_app. simpl. unfold set_token_id at 1.
  destruct (tokens !! k) as [c'|] eqn:Hk.
  - rewrite lookup_insert. case_decide; [by eexists|].
    apply IH; [|done]. destruct (decide (i = k)); [|lia]. congruence.
  - apply IH; [|done]. destruct (decide (i = k)); [|lia]. congruence.
Qed.

Lemma token_to_id_Some c i :
  token_to_id !! c = Some i → tokens !! i = Some c.
Proof. intros H. by apply token_ids_prefix_sound in H as [_ ?]. Qed.

Lemma token_to_id_elem c :
  c ∈ tokens → ∃ i, token_to_id !! c = Some i ∧ tokens !! i = Some c.
Proof.
  intros [i Hi]%list_elem_of_lookup.
  destruct (token_ids_prefix_complete (length tokens) c i) as [j Hj];
    [by eapply lookup_lt_Some | done |].
  exists j. split; [done | by apply token_to_id_Some].
Qed.

Lemma token_to_id_None c :
  c ∉ tokens → token_to_id !! c = None.
Proof.
  intros Hc. destruct (token_to_id !! c) as [i|] eqn:H; [|done].
  apply token_to_id_Some in H. destruct Hc. by eapply list_elem_of_lookup_2.
Qed.

End VocabularyFacts.

(** ** The error monad *)

Lemma result_bind_Ok {A B} (f : A → result B) (a : A) : (Ok a ≫= f) = f a.
Proof. reflexivity. Qed.

Lemma result_bind_Raise {A B} (f : A → result B) (e : py_error) :
  (Raise e ≫= f) = Raise e.
Proof. reflexivity. Qed.

Lemma mapM_result_cons {A B} (f : A → result B) (x : A) (l : list A) :
  mapM f (x :: l) = (y ← f x; k ← mapM f l; Ok (y :: k)).
Proof. reflexivity. Qed.

Lemma mapM_result_Ok {A B} (f : A → result B) (g : A → B) (l : list A) :
  Forall (fun x => f x = Ok (g x)) l → mapM f l = Ok (g <$> l).
Proof.
  induction 1 as [|x l Hx _ IH]; [done|].
  rewrite mapM_result_cons, Hx, IH. done.
Qed.

Lemma mapM_result_length {A B} (f : A → result B) (l : list A) (k : list B) :
  mapM f l = Ok k → length k = length l.
Proof.
  revert k. induction l as [|x l IH]; intros k.
  - by intros [= <-].
  - rewrite mapM_result_cons. destruct (f x) as [y|e]; [|done].
    rewrite result_bind_Ok. destruct (mapM f l) as [k'|e]; [|done].
    intros [= <-]. simpl. f_equal. by apply IH.
Qed.

Lemma py_index_Some {A} (l : list A) i a : l !! i = Some a → py_index l i = Ok a.
Proof. unfold py_index. by intros ->. Qed.

Lemma mapM_result_Raise {A B} (f : A → result B) (e : py_error) (l : list A) :
  Forall (fun x => (∃ y, f x = Ok y) ∨ f x = Raise e) l →
  Exists (fun x => f x = Raise e) l →
  mapM f l = Raise e.
Proof.
  induction 1 as [|x l Hx _ IH]; intros Hex.
  - by apply Exists_nil in Hex.
  - rewrite mapM_result_cons. destruct Hx as [[y Hy]| ->]; [|done].
    rewrite Hy, result_bind_Ok. apply Exists_cons in Hex as [Hex|Hex].
    + congruence.
    + by rewrite IH.
Qed.

(** ** Row assignment *)

Section BatcherFacts.

Variable tokens : list ascii.
Local Abbreviation token_to_id := (token_to_id tokens).
Local Abbreviation in_vocabulary := (in_vocabulary tokens).
Local Abbreviation map_get := (map_get tokens).
Local Abbreviation to_matrix := (to_matrix tokens).
Local Abbreviation assigned_row := (assigned_row tokens).

Lemma chars_length name : length (chars name) = len name.
Proof. induction name; simpl; [done | by f_equal]. Qed.

Lemma map_get_encode name :
  in_vocabulary name → map_get name = Some <$> encode tokens name.
Proof.
  unfold in_vocabulary, map_get, encode.
  induction 1 as [|c l Hc _ IH]; [done|].
  apply token_to_id_elem in Hc as (i & Hi & _).
  cbn [fmap list_fmap omap list_omap]. rewrite Hi. simpl. by f_equal.
Qed.

Lemma encode_length name :
  in_vocabulary name → length (encode tokens name) = len name.
Proof.
  intros H. rewrite <- chars_length.
  apply map_get_encode in H. apply (f_equal length) in H.
  unfold map_get in H. by rewrite !length_fmap in H.
Qed.

Lemma encode_decode name :
  in_vocabulary name →
  (fun i => tokens !! i) <$> encode tokens name = Some <$> chars name.
Proof.
  unfold in_vocabulary, encode.
  induction 1 as [|c l Hc _ IH]; [done|].
  apply token_to_id_elem in Hc as (i & Hi & Hti).
  cbn [fmap list_fmap omap list_omap]. rewrite Hi. simpl. rewrite Hti.
  by f_equal.
Qed.

Lemma as_int_array_Some ids :
  as_int_array (Some <$> ids) = Ok (Z.of_nat <$> ids).
Proof. induction ids as [|i ids IH]; csimpl; [done | by rewrite IH]. Qed.

Lemma as_int_array_None v :
  None ∈ v → as_int_array v = Raise TypeError.
Proof.
  induction v as [|[i|] v IH]; intros Hin.
  - by apply elem_of_nil in Hin.
  - apply elem_of_cons in Hin as [?|Hin]; [done|]. simpl. by rewrite IH.
  - done.
Qed.

Lemma map_get_absent name :
  ¬ in_vocabulary name → None ∈ map_get name.
Proof.
  unfold in_vocabulary, map_get. intros H.
  apply not_Forall_Exists in H; [|intros c; apply _].
  apply Exists_exists in H as (c & Hc & Hnot).
  apply list_elem_of_fmap. exists c. split; [|done].
  symmetry. by apply token_to_id_None.
Qed.

Lemma map_get_length name : length (map_get name) = len name.
Proof. unfold map_get. by rewrite length_fmap, chars_length. Qed.

Lemma assigned_row_fits w pad name :
  in_vocabulary name → len name ≤ w →
  assigned_row w pad name
  = Ok ((Z.of_nat <$> encode tokens name) ++ replicate (w - len name) pad).
Proof.
  intros Hv Hle. unfold assigned_row. cbv zeta.
  rewrite map_get_length, Nat.min_l, decide_True by done.
  by rewrite (map_get_encode _ Hv), as_int_array_Some, result_bind_Ok.
Qed.

(** A name longer than a positive width is refused before any of its symbols
    is converted. *)
Lemma assigned_row_longer w pad name :
  0 < w → w < len name →
  assigned_row w pad name = Raise ValueError.
Proof.
  intros Hpos Hlt. unfold assigned_row. cbv zeta.
  pose proof (map_get_length name) as Hlen.
  rewrite Hlen, Nat.min_r, decide_False by lia.
  destruct (map_get name) as [|x [|y v]]; simpl in Hlen; [done | lia | done].
Qed.

Lemma assigned_row_too_long w pad name :
  in_vocabulary name → 0 < w → w < len name →
  assigned_row w pad name = Raise ValueError.
Proof. intros _. apply assigned_row_longer. Qed.

Lemma assigned_row_absent w pad name :
  len name ≤ w →
  ¬ in_vocabulary name → assigned_row w pad name = Raise TypeError.
Proof.
  intros Hle H. unfold assigned_row. cbv zeta.
  rewrite map_get_length, Nat.min_l, decide_True by done.
  by rewrite (as_int_array_None _ (map_get_absent _ H)).
Qed.

Lemma np_assign_prefix_blank (m : matrix) i w pad name :
  ncols m = w →
  mrows m !! i = Some (replicate w pad) →
  np_assign_prefix m i (map_get name)
  = (row ← assigned_row w pad name; Ok (Matrix w (<[i := row]> (mrows m)))).
Proof.
  intros Hw Hi. unfold np_assign_prefix, assigned_row.
  rewrite (py_index_Some _ _ _ Hi), result_bind_Ok, Hw. cbv zeta.
  case_decide.
  - destruct (as_int_array (map_get name)) as [vals|e]; [|done].
    by rewrite !result_bind_Ok, drop_replicate.
  - destruct (map_get name) as [|x [|??]]; [done| |done].
    destruct (as_int_array _) as [vals|e]; [|done].
    by rewrite !result_bind_Ok, drop_replicate.
Qed.

Lemma to_matrix_loop names w pad rest :
  ∀ pre done,
    names = pre ++ rest →
    length done = length pre →
    for_in (seq (length pre) (length rest))
           (fun names_ix i =>
              name ← py_index names i;
              np_assign_prefix names_ix i (map_get name))
           (Matrix w (done ++ replicate (length rest) (replicate w pad)))
    = (rows ← mapM (assigned_row w pad) rest; Ok (Matrix w (done ++ rows))).
Proof.
  induction rest as [|name rest IH]; intros pre done Hnames Hlen.
  - simpl. done.
  - cbn [length seq for_in replicate].
    assert (names !! length pre = Some name) as Hname.
    { subst names. by rewrite list_lookup_middle. }
    rewrite (py_index_Some _ _ _ Hname), !result_bind_Ok.
    rewrite (np_assign_prefix_blank _ _ w pad); [|done|].
    2:{ simpl. rewrite <- Hlen. by rewrite list_lookup_middle. }
    rewrite mapM_result_cons.
    destruct (assigned_row w pad name) as [row|e]; [|done].
    rewrite !result_bind_Ok. cbn [mrows].
    rewrite <- Hlen, insert_app_r_alt, Nat.sub_diag by lia. cbn [insert list_insert].
    replace (S (length done)) with (length (pre ++ [name]))
      by (rewrite length_app; simpl; lia).
    rewrite (cons_middle row done), (assoc_L (++)).
    rewrite IH.
    + destruct (mapM (assigned_row w pad) rest) as [rows|e]; [|done].
      rewrite !result_bind_Ok. by rewrite <- (assoc_L (++)).
    + by rewrite <- (assoc_L (++)).
    + rewrite !length_app. simpl. lia.
Qed.

Lemma to_matrix_width names max_len pad (w : nat) :
  match max_len with
  | Some n => if decide (n = 0%Z) then Z.of_nat <$> py_max (len <$> names)
              else Ok n
  | None => Z.of_nat <$> py_max (len <$> names)
  end = Ok (Z.of_nat w) →
  to_matrix names max_len pad
  = (rows ← mapM (assigned_row w pad) names; Ok (Matrix w rows)).
Proof.
  intros Hw. unfold to_matrix. rewrite Hw, result_bind_Ok.
  unfold np_zeros_plus. rewrite decide_False by lia.
  rewrite result_bind_Ok, Nat2Z.id.
  apply (to_matrix_loop names w pad names [] []); done.
Qed.

Lemma to_matrix_default names pad :
  names ≠ [] →
  to_matrix names None pad
  = (rows ← mapM (assigned_row (longest names) pad) names;
     Ok (Matrix (longest names) rows)).
Proof.
  intros Hne. apply to_matrix_width. by destruct names.
Qed.

Lemma to_matrix_explicit names (n : Z) pad :
  (0 < n)%Z →
  to_matrix names (Some n) pad
  = (rows ← mapM (assigned_row (Z.to_nat n) pad) names;
     Ok (Matrix (Z.to_nat n) rows)).
Proof.
  intros Hn. apply to_matrix_width.
  rewrite decide_False by lia. f_equal. lia.
Qed.

Lemma len_le_longest names name :
  name ∈ names → len name ≤ longest names.
Proof.
  intros Hin. unfold longest.
  apply (max_list_elem_of_le (len name)). by apply list_elem_of_fmap_2.
Qed.

(** Rows of a batch whose names are all in the vocabulary and fit. *)
Lemma to_matrix_rows_Ok names w pad :
  Forall in_vocabulary names →
  Forall (fun name => len name ≤ w) names →
  mapM (assigned_row w pad) names
  = Ok ((fun name => (Z.of_nat <$> encode tokens name)
                       ++ replicate (w - len name) pad) <$> names).
Proof.
  intros Hv Hfit. apply mapM_result_Ok.
  apply Forall_forall. intros name Hin.
  apply assigned_row_fits.
  - by eapply Forall_forall in Hv.
  - by eapply Forall_forall in Hfit.
Qed.

End BatcherFacts.

(** ** The batcher [to_matrix] *)

(** C6.  With [max_len] omitted, a non-empty list of sequences over the
    vocabulary yields a matrix with one row per sequence and as many columns
    as the longest sequence of that list has symbols; each row starts with the
    id-encoding of its sequence (ids that decode back to its symbols) and holds
    [pad] in every remaining entry. *)
Theorem to_matrix_default_rows tokens (names : list string) (pad : Z) :
  names ≠ [] →
  Forall (in_vocabulary tokens) names →
  ∃ m, to_matrix tokens names None pad = Ok m
       ∧ nrows m = length names
       ∧ ncols m = longest names
       ∧ ∀ r name, names !! r = Some name →
           ∃ row, mrows m !! r = Some row
                  ∧ length row = ncols m
                  ∧ take (len name) row = Z.of_nat <$> encode tokens name
                  ∧ (fun i => tokens !! i) <$> encode tokens name
                    = Some <$> chars name
                  ∧ drop (len name) row = replicate (ncols m - len name) pad.
Proof.
  intros Hne Hv.
  assert (Forall (fun name => len name ≤ longest names) names) as Hfit.
  { apply Forall_forall. intros name. apply len_le_longest. }
  rewrite to_matrix_default, (to_matrix_rows_Ok _ _ _ _ Hv Hfit) by done.
  eexists. split; [reflexivity|]. unfold nrows. cbn [mrows ncols].
  split; [by rewrite length_fmap|]. split; [done|].
  intros r name Hr. eexists. split; [by rewrite list_lookup_fmap, Hr|].
  assert (in_vocabulary tokens name) as Hvn.
  { eapply Forall_forall in Hv; [done|]. by eapply list_elem_of_lookup_2. }
  assert (len name ≤ longest names) as Hle.
  { eapply Forall_forall in Hfit; [done|]. by eapply list_elem_of_lookup_2. }
  pose proof (encode_length _ _ Hvn) as Hlen.
  split; [|split; [|split]].
  - rewrite length_app, length_fmap, length_replicate. lia.
  - rewrite take_app_length'; [done|]. by rewrite length_fmap.
  - by apply encode_decode.
  - rewrite drop_app_length'; [done|]. by rewrite length_fmap.
Qed.

Lemma to_matrix_default_rows_witness :
  [" ab"; " abcd"] ≠ [] ∧
  Forall (in_vocabulary [" "; "a"; "b"; "c"; "d"]%char) [" ab"; " abcd"] ∧
  ∃ m, to_matrix [" "; "a"; "b"; "c"; "d"]%char [" ab"; " abcd"] None 7 = Ok m
       ∧ nrows m = 2
       ∧ ncols m = 5.
Proof.
  assert (Forall (in_vocabulary [" "; "a"; "b"; "c"; "d"]%char) [" ab"; " abcd"])
    as Hv by (repeat constructor).
  split; [done|]. split; [exact Hv|].
  destruct (to_matrix_default_rows [" "; "a"; "b"; "c"; "d"]%char
              [" ab"; " abcd"] 7 ltac:(done) Hv) as (m & Hm & Hr & Hc & _).
  exists m. done.
Defined.

(** A sequence with a symbol outside the vocabulary fits the requested width
    and [to_matrix] still fails: the statement "a [ValueError] if some
    sequence is longer than [max_len], success otherwise", read over all
    lists of strings, is false. *)
Lemma to_matrix_max_len_all_strings_counterexample :
  ¬ ((Exists (fun name => (1 < Z.of_nat (len name))%Z) ["?"] →
      to_matrix [" "; "a"]%char ["?"] (Some 1%Z) 0 = Raise ValueError)
     ∧ (¬ Exists (fun name => (1 < Z.of_nat (len name))%Z) ["?"] →
        ∃ m, to_matrix [" "; "a"]%char ["?"] (Some 1%Z) 0 = Ok m)).
Proof.
  intros [_ Hok].
  destruct Hok as [m Hm].
  - intros [Hlong|Hnil]%Exists_cons.
    + simpl in Hlong. lia.
    + by apply Exists_nil in Hnil.
  - vm_compute in Hm. discriminate Hm.
Qed.

(** C7 (amended).  For sequences over the vocabulary and a positive
    caller-supplied [max_len]: a sequence strictly longer than [max_len] makes
    [to_matrix] fail with a [ValueError]; when there is none it succeeds. *)
Theorem to_matrix_max_len_in_vocabulary tokens (names : list string)
    (max_len : Z) (pad : Z) :
  (0 < max_len)%Z →
  Forall (in_vocabulary tokens) names →
  (Exists (fun name => (max_len < Z.of_nat (len name))%Z) names →
   to_matrix tokens names (Some max_len) pad = Raise ValueError)
  ∧ (¬ Exists (fun name => (max_len < Z.of_nat (len name))%Z) names →
     ∃ m, to_matrix tokens names (Some max_len) pad = Ok m).
Proof.
  intros Hpos Hv. rewrite to_matrix_explicit by done. split.
  - intros Hlong.
    rewrite (mapM_result_Raise _ ValueError); [done| |].
    + apply Forall_forall. intros name Hin.
      assert (in_vocabulary tokens name) as Hvn by (by eapply Forall_forall in Hv).
      destruct (decide (len name ≤ Z.to_nat max_len)) as [Hle|Hgt].
      * left. eexists. by apply assigned_row_fits.
      * right. apply assigned_row_too_long; [done | lia | lia].
    + apply Exists_exists in Hlong as (name & Hin & Hn).
      apply Exists_exists. exists name. split; [done|].
      apply assigned_row_too_long; [|lia|lia].
      by eapply Forall_forall in Hv.
  - intros Hnone.
    rewrite (to_matrix_rows_Ok _ _ _ _ Hv); [by eexists|].
    apply Forall_forall. intros name Hin.
    destruct (decide (len name ≤ Z.to_nat max_len)) as [Hle|Hgt]; [done|].
    destruct Hnone. apply Exists_exists. exists name. split; [done | lia].
Qed.

Lemma to_matrix_max_len_in_vocabulary_witness :
  (0 < 3)%Z ∧
  Forall (in_vocabulary [" "; "a"; "b"; "c"; "d"]%char) [" ab"; " abcd"] ∧
  Exists (fun name => (3 < Z.of_nat (len name))%Z) [" ab"; " abcd"] ∧
  to_matrix [" "; "a"; "b"; "c"; "d"]%char [" ab"; " abcd"] (Some 3%Z) 0
  = Raise ValueError.
Proof.
  assert (Forall (in_vocabulary [" "; "a"; "b"; "c"; "d"]%char) [" ab"; " abcd"])
    as Hv by (repeat constructor).
  assert (Exists (fun name => (3 < Z.of_nat (len name))%Z) [" ab"; " abcd"])
    as Hlong by (right; left; simpl; lia).
  split; [lia|]. split; [exact Hv|]. split; [exact Hlong|].
  exact (proj1 (to_matrix_max_len_in_vocabulary
                  [" "; "a"; "b"; "c"; "d"]%char [" ab"; " abcd"] 3 0
                  ltac:(lia) Hv) Hlong).
Defined.

(** C10.  An explicit [max_len] of [0] is the same call as one with [max_len]
    omitted, whatever the arguments; in particular, on a non-empty list of
    sequences over the vocabulary it succeeds with the width of the longest
    sequence of the list, not with a zero-width matrix. *)
Theorem to_matrix_zero_max_len_is_default tokens (names : list string) (pad : Z) :
  to_matrix tokens names (Some 0%Z) pad = to_matrix tokens names None pad
  ∧ (names ≠ [] → Forall (in_vocabulary tokens) names →
     ∃ m, to_matrix tokens names (Some 0%Z) pad = Ok m
          ∧ ncols m = longest names).
Proof.
  assert (to_matrix tokens names (Some 0%Z) pad = to_matrix tokens names None pad)
    as Heq by (unfold to_matrix; by rewrite decide_True).
  split; [done|]. intros Hne Hv. rewrite Heq.
  assert (Forall (fun name => len name ≤ longest names) names) as Hfit.
  { apply Forall_forall. intros name. apply len_le_longest. }
  rewrite to_matrix_default, (to_matrix_rows_Ok _ _ _ _ Hv Hfit) by done.
  by eexists.
Qed.

Lemma to_matrix_zero_max_len_is_default_witness :
  to_matrix [" "; "a"; "b"; "c"; "d"]%char [" ab"; " abcd"] (Some 0%Z) 0
  = to_matrix [" "; "a"; "b"; "c"; "d"]%char [" ab"; " abcd"] None 0
  ∧ ∃ m, to_matrix [" "; "a"; "b"; "c"; "d"]%char [" ab"; " abcd"] (Some 0%Z) 0
         = Ok m ∧ ncols m = 5.
Proof.
  destruct (to_matrix_zero_max_len_is_default
              [" "; "a"; "b"; "c"; "d"]%char [" ab"; " abcd"] 0) as [Heq Hok].
  split; [exact Heq|].
  apply Hok; [done | repeat constructor].
Defined.

(** C8 (the batcher's side).  [to_matrix] looks symbols up with [dict.get]:
    a symbol outside the vocabulary becomes [None] and the call fails when
    NumPy converts the row, with a [TypeError], which is not a
    [LookupError]. *)
Theorem to_matrix_absent_symbol_TypeError tokens (names : list string) (pad : Z) :
  Exists (fun name => ¬ in_vocabulary tokens name) names →
  to_matrix tokens names None pad = Raise TypeError
  ∧ is_LookupError TypeError = false.
Proof.
  intros Hex. split; [|done].
  rewrite to_matrix_default by (intros ->; by apply Exists_nil in Hex).
  rewrite (mapM_result_Raise _ TypeError); [done| |].
  - apply Forall_forall. intros name Hin.
    destruct (decide (in_vocabulary tokens name)) as [Hv|Hnv].
    + left. eexists. apply assigned_row_fits; [done|]. by apply len_le_longest.
    + right. apply assigned_row_absent; [by apply len_le_longest | done].
  - apply Exists_exists in Hex as (name & Hin & Hnv).
    apply Exists_exists. exists name. split; [done|].
    apply assigned_row_absent; [by apply len_le_longest | done].
Qed.

Lemma to_matrix_absent_symbol_TypeError_witness :
  Exists (fun name => ¬ in_vocabulary [" "; "a"]%char name) [" a"; " a?"] ∧
  to_matrix [" "; "a"]%char [" a"; " a?"] None 0 = Raise TypeError.
Proof.
  assert (Exists (fun name => ¬ in_vocabulary [" "; "a"]%char name) [" a"; " a?"])
    as Hex.
  { right. left. apply (bool_decide_unpack _). vm_compute. exact I. }
  split; [exact Hex|].
  exact (proj1 (to_matrix_absent_symbol_TypeError [" "; "a"]%char
                  [" a"; " a?"] 0 Hex)).
Defined.

(** ** Lists as tensors *)

Lemma zip_with_fmap_same {A B C D} (f : B → C → D) (g : A → B) (h : A → C)
    (l : list A) :
  zip_with f (g <$> l) (h <$> l) = (fun x => f (g x) (h x)) <$> l.
Proof. by rewrite zip_with_fmap_l, zip_with_fmap_r, zip_with_diag. Qed.

Lemma tf_transpose_102_fmap {A B} (f : nat → A → B) (rows : list A)
    (ts : list nat) :
  tf_transpose_102 (length rows) ((fun t => f t <$> rows) <$> ts)
  = (fun row => (fun t => f t row) <$> ts) <$> rows.
Proof.
  induction ts as [|t ts IH].
  - simpl. symmetry. by apply const_fmap.
  - rewrite fmap_cons. cbn [tf_transpose_102].
    rewrite IH. by rewrite zip_with_fmap_same.
Qed.

Lemma but_last_fmap_seq {A} (g : nat → A) (n : nat) :
  but_last (g <$> seq 0 n) = g <$> seq 0 (n - 1).
Proof.
  unfold but_last. rewrite length_fmap, length_seq, <- fmap_take, take_seq.
  by rewrite Nat.min_l by lia.
Qed.

Lemma drop_1_as_fmap_seq (row : list Z) (n : nat) :
  length row = n →
  drop 1 row = (fun t => nth (S t) row 0%Z) <$> seq 0 (n - 1).
Proof.
  intros <-. destruct row as [|x row]; [done|].
  cbn [drop length nth]. rewrite Nat.sub_succ, Nat.sub_0_r.
  induction row as [|y row IH]; [done|].
  cbn [length seq]. rewrite fmap_cons.
  rewrite <- fmap_S_seq, <- list_fmap_compose. simpl. f_equal. exact IH.
Qed.



(** ** The unrolled training graph *)

Section TrainerFacts.

Context {scalar : Type}.
Variables fzero fone : scalar.
Variable tokens : list ascii.
Variable MAX_LENGTH : nat.
Variable embed_x : Z → list scalar.
Variables get_h_next get_probas : list scalar → list scalar.
Variable categorical_crossentropy : list scalar → list scalar → scalar.
Variable tf_reduce_mean : list scalar → scalar.

Local Abbreviation rnn_one_step := (rnn_one_step embed_x get_h_next get_probas).
Local Abbreviation transition := (transition embed_x get_h_next get_probas).
Local Abbreviation hidden_before :=
  (hidden_before fzero embed_x get_h_next get_probas).
Local Abbreviation predicted_at :=
  (predicted_at fzero embed_x get_h_next get_probas).
Local Abbreviation unroll := (unroll fzero embed_x get_h_next get_probas).
Local Abbreviation unroll_body := (unroll_body embed_x get_h_next get_probas).
Local Abbreviation predicted_probas :=
  (predicted_probas fzero MAX_LENGTH embed_x get_h_next get_probas).
Local Abbreviation spec_predicted_probas :=
  (spec_predicted_probas fzero MAX_LENGTH embed_x get_h_next get_probas).
Local Abbreviation position_loss :=
  (position_loss fzero fone tokens embed_x get_h_next get_probas
                 categorical_crossentropy).
Local Abbreviation spec_position_losses :=
  (spec_position_losses fzero fone tokens MAX_LENGTH embed_x get_h_next
                        get_probas categorical_crossentropy).
Local Abbreviation loss :=
  (loss fzero fone tokens MAX_LENGTH embed_x get_h_next get_probas
        categorical_crossentropy tf_reduce_mean).
Local Abbreviation train_step :=
  (train_step fzero fone tokens MAX_LENGTH embed_x get_h_next get_probas
              categorical_crossentropy tf_reduce_mean).

(** A batch step is the transition function applied to every row. *)
Lemma rnn_one_step_rows (x_t : list Z) (h_t : list (list scalar)) :
  rnn_one_step x_t h_t
  = (zip_with (fun x h => (transition x h).1) x_t h_t,
     zip_with (fun x h => (transition x h).2) x_t h_t).
Proof.
  unfold rnn_one_step, transition. cbv zeta. cbn [fst snd].
  revert h_t. induction x_t as [|x x_t IH]; intros [|h h_t]; [done..|].
  specialize (IH h_t). csimpl in *. injection IH as IH1 IH2.
  by rewrite IH1, IH2.
Qed.

Lemma tf_zeros_rows (rows : list (list Z)) :
  tf_zeros fzero (length rows) = (fun row => hidden_before row 0) <$> rows.
Proof. unfold tf_zeros. symmetry. by apply const_fmap. Qed.

(** After [k] steps the loop has collected, for every step, the
    distribution of each row, and holds the hidden state of each row. *)
Lemma unroll_rows (k : nat) (input : matrix) :
  unroll k input
  = ((fun t => (fun row => predicted_at row t) <$> mrows input) <$> seq 0 k,
     (fun row => hidden_before row k) <$> mrows input).
Proof.
  unfold unroll. cbv zeta. unfold nrows. rewrite tf_zeros_rows.
  induction k as [|k IH]; [done|].
  rewrite seq_S, foldl_app, IH. cbn [foldl]. unfold unroll_body at 1.
  cbn [fst snd]. unfold column. rewrite rnn_one_step_rows.
  rewrite !zip_with_fmap_same, fmap_app. done.
Qed.

Lemma predicted_probas_rows (input : matrix) :
  predicted_probas input
  = (fun row => predicted_at row <$> seq 0 (MAX_LENGTH - 1)) <$> mrows input.
Proof.
  unfold predicted_probas. cbv zeta. rewrite unroll_rows. cbn [fst].
  unfold nrows. rewrite tf_transpose_102_fmap, <- list_fmap_compose.
  apply list_fmap_ext. intros _ row _. simpl. apply but_last_fmap_seq.
Qed.

Lemma spec_predicted_probas_rows (input : matrix) :
  spec_predicted_probas input
  = (fun row => predicted_at row <$> seq 0 (MAX_LENGTH - 1)) <$> mrows input.
Proof.
  unfold spec_predicted_probas. cbv zeta. rewrite unroll_rows. cbn [fst].
  unfold nrows. by rewrite tf_transpose_102_fmap.
Qed.

(** C2.  Unrolling over all [MAX_LENGTH] columns and then dropping the
    distribution of the last step gives the same per-step distributions as
    unrolling over the steps [0 .. MAX_LENGTH-2] only: the collected lists
    agree step by step ([MAX_LENGTH - 1] of them), and so do the
    [[batch, time, n_tokens]] tensors built from them, whose entry for a row
    and a step is the transition function's distribution for that row at that
    step. *)
Theorem unroll_all_drop_last_eq_unroll_short (input : matrix) :
  but_last (unroll MAX_LENGTH input).1 = (unroll (MAX_LENGTH - 1) input).1
  ∧ length (unroll (MAX_LENGTH - 1) input).1 = MAX_LENGTH - 1
  ∧ predicted_probas input = spec_predicted_probas input
  ∧ predicted_probas input
    = (fun row => predicted_at row <$> seq 0 (MAX_LENGTH - 1)) <$> mrows input.
Proof.
  rewrite !unroll_rows. cbn [fst].
  split; [apply but_last_fmap_seq|].
  split; [by rewrite length_fmap, length_seq|].
  split; [|apply predicted_probas_rows].
  by rewrite predicted_probas_rows, spec_predicted_probas_rows.
Qed.

(** Cross-entropies of one row: targets are columns [1 ..] of the row,
    predictions are those of steps [0 .. MAX_LENGTH-2]. *)
Lemma row_losses (row : list Z) :
  length row = MAX_LENGTH →
  zip_with categorical_crossentropy
           (tf_one_hot fzero fone (n_tokens tokens) <$> drop 1 row)
           (predicted_at row <$> seq 0 (MAX_LENGTH - 1))
  = position_loss row <$> seq 0 (MAX_LENGTH - 1).
Proof.
  intros Hlen. rewrite (drop_1_as_fmap_seq row MAX_LENGTH Hlen).
  rewrite <- list_fmap_compose. by rewrite zip_with_fmap_same.
Qed.

Lemma loss_positions (input : matrix) :
  wf_matrix input → ncols input = MAX_LENGTH →
  zip_with categorical_crossentropy
           (answers_matrix fzero fone tokens input)
           (predictions_matrix fzero MAX_LENGTH embed_x get_h_next get_probas
                               input)
  = spec_position_losses input.
Proof.
  unfold wf_matrix, answers_matrix, predictions_matrix, spec_position_losses.
  rewrite predicted_probas_rows. intros Hwf Hcols. rewrite Hcols in Hwf.
  induction Hwf as [|row rows Hrow _ IH]; [done|].
  rewrite !fmap_cons, bind_cons. cbn [concat].
  rewrite fmap_app, zip_with_app, IH, row_losses; [done..|].
  rewrite !length_fmap, length_drop, length_seq. lia.
Qed.



(** The width test is the only one: were the placeholder one column wide, a
    one-column batch would be accepted and the loss would be the mean of an
    empty list of positions. *)
Lemma train_step_width_one (batch : matrix) :
  MAX_LENGTH = 1 → ncols batch = 1 →
  train_step batch = Ok (tf_reduce_mean []).
Proof.
  intros HL Hcols. unfold train_step. rewrite decide_True by congruence.
  unfold loss, predictions_matrix. rewrite predicted_probas_rows, HL.
  replace (concat _) with (@nil (list scalar)).
  - by destruct (answers_matrix _ _ _ _).
  - induction (mrows batch) as [|row rows IH]; [done|].
    rewrite fmap_cons. simpl. exact IH.
Qed.

(** A batch of the wrong width is refused when it is fed. *)
Lemma train_step_shape_mismatch (batch : matrix) :
  ncols batch ≠ MAX_LENGTH → train_step batch = Raise ValueError.
Proof. intros H. unfold train_step. by rewrite decide_False. Qed.

End TrainerFacts.



(** ** The corpus and the placeholder width *)

Lemma tokens_in_order_is_vocabulary (names : list string) :
  is_vocabulary_of names (tokens_in_order names).
Proof.
  split; [apply NoDup_remove_dups|].
  intros c. unfold tokens_in_order.
  rewrite elem_of_remove_dups, list_elem_of_bind. split.
  - intros (name & Hc & Hname). by exists name.
  - intros (name & Hname & Hc). by exists name.
Qed.

Lemma first_symbol_is_start (lines : list string) (name : string) :
  name ∈ with_start_token lines → ∃ line, name = String start_token line.
Proof.
  unfold with_start_token. intros (line & -> & _)%list_elem_of_fmap. by eexists.
Qed.

(** A vocabulary of at least two symbols comes from a corpus with a name of
    at least two symbols: every name starts with the start symbol, so a second
    symbol needs a second position. *)
Lemma corpus_longest_ge_2 (lines : list string) (tokens : list ascii) :
  is_vocabulary_of (with_start_token lines) tokens →
  2 ≤ n_tokens tokens →
  2 ≤ longest (with_start_token lines).
Proof.
  intros [Hnodup Hmem] Hn.
  assert (∃ c, c ∈ tokens ∧ c ≠ start_token) as (c & Hc & Hne).
  { unfold n_tokens in Hn. destruct tokens as [|c1 [|c2 rest]]; simpl in Hn; [lia..|].
    destruct (decide (c1 = start_token)) as [->|Hc1].
    - exists c2. split; [apply elem_of_cons; right; apply elem_of_cons; by left|].
      apply NoDup_cons in Hnodup as [Hnotin _].
      intros ->. apply Hnotin, elem_of_cons. by left.
    - exists c1. split; [apply elem_of_cons; by left | done]. }
  apply Hmem in Hc as (name & Hname & Hin).
  destruct (first_symbol_is_start _ _ Hname) as [line ->].
  etrans; [|by apply len_le_longest].
  cbn in Hin. apply elem_of_cons in Hin as [?|Hin]; [done|].
  destruct line; [by apply elem_of_nil in Hin | simpl; lia].
Qed.

(** C9.  The graph is built after the script has checked
    [50 < n_tokens < 60] on the vocabulary of the corpus, so the placeholder
    is at least two columns wide, and [train_step] answers a batch of fewer
    than two columns with a [ValueError] instead of a loss. *)
Theorem train_step_rejects_narrow_batch {scalar : Type} (fzero fone : scalar)
    (lines : list string) (tokens : list ascii)
    (embed_x : Z → list scalar) (get_h_next get_probas : list scalar → list scalar)
    (categorical_crossentropy : list scalar → list scalar → scalar)
    (tf_reduce_mean : list scalar → scalar) (batch : matrix) :
  is_vocabulary_of (with_start_token lines) tokens →
  50 < n_tokens tokens < 60 →
  ncols batch < 2 →
  train_step fzero fone tokens (longest (with_start_token lines)) embed_x
             get_h_next get_probas categorical_crossentropy tf_reduce_mean
             batch
  = Raise ValueError.
Proof.
  intros Hvoc Hassert Hcols.
  apply train_step_shape_mismatch.
  pose proof (corpus_longest_ge_2 lines tokens Hvoc) as Hlong. lia.
Qed.

Lemma train_step_rejects_narrow_batch_witness :
  is_vocabulary_of (with_start_token Toy.lines) Toy.tokens ∧
  50 < n_tokens Toy.tokens < 60 ∧
  ncols (Matrix 1 [[0]; [0]]%Z) < 2 ∧
  train_step 0%Z 1%Z Toy.tokens (longest (with_start_token Toy.lines))
             Toy.embed_x Toy.get_h_next (Toy.get_probas 53)
             Toy.categorical_crossentropy Toy.tf_reduce_mean
             (Matrix 1 [[0]; [0]]%Z)
  = Raise ValueError.
Proof.
  assert (n_tokens Toy.tokens = 53) as Hn by (vm_compute; reflexivity).
  assert (50 < n_tokens Toy.tokens < 60) as Hassert by (rewrite Hn; lia).
  split; [apply tokens_in_order_is_vocabulary|]. split; [exact Hassert|].
  split; [simpl; lia|].
  exact (train_step_rejects_narrow_batch 0%Z 1%Z Toy.lines Toy.tokens
           Toy.embed_x Toy.get_h_next (Toy.get_probas 53)
           Toy.categorical_crossentropy Toy.tf_reduce_mean
           (Matrix 1 [[0]; [0]]%Z)
           (tokens_in_order_is_vocabulary _) Hassert ltac:(simpl; lia)).
Defined.

(** ** The sampler *)

Section SamplerFacts.

Context {scalar rng : Type}.
Variable fzero : scalar.
Variable tokens : list ascii.
Variable embed_x : Z → list scalar.
Variables get_h_next get_probas : list scalar → list scalar.
Variable random_choice : rng → nat → list scalar → nat * rng.

Local Abbreviation rnn_one_step := (rnn_one_step embed_x get_h_next get_probas).
Local Abbreviation feed_step := (feed_step embed_x get_h_next get_probas).
Local Abbreviation generate_body :=
  (generate_body tokens embed_x get_h_next get_probas random_choice).
Local Abbreviation generate_sample :=
  (generate_sample fzero tokens embed_x get_h_next get_probas random_choice).
Local Abbreviation session := (@session scalar rng).

Local Abbreviation choice_in_range := (choice_in_range random_choice).

Lemma getitem_encode (seed : string) :
  in_vocabulary tokens seed →
  mapM (token_to_id_getitem tokens) (chars seed) = Ok (encode tokens seed).
Proof.
  unfold in_vocabulary, encode.
  induction 1 as [|c l Hc _ IH]; [done|].
  apply token_to_id_elem in Hc as (i & Hi & _).
  rewrite mapM_result_cons, IH. unfold token_to_id_getitem.
  cbn [omap list_omap]. by rewrite Hi.
Qed.

Lemma getitem_absent (seed : string) :
  ¬ in_vocabulary tokens seed →
  mapM (token_to_id_getitem tokens) (chars seed) = Raise KeyError.
Proof.
  intros Hnv. apply mapM_result_Raise.
  - apply Forall_forall. intros c _. unfold token_to_id_getitem.
    destruct (token_to_id tokens !! c); [left; by eexists | by right].
  - apply not_Forall_Exists in Hnv; [|intros c; apply _].
    eapply Exists_impl; [exact Hnv|]. intros c Hc. cbv beta in Hc.
    unfold token_to_id_getitem. by rewrite (token_to_id_None _ _ Hc).
Qed.

Lemma encode_in_range (seed : string) :
  Forall (fun i => i < n_tokens tokens) (encode tokens seed).
Proof.
  unfold encode. apply Forall_forall. intros i Hi.
  apply list_elem_of_omap in Hi as (c & _ & Hc).
  apply token_to_id_Some in Hc. by eapply lookup_lt_Some.
Qed.

Lemma rnn_one_step_single (x : Z) (h : list (list scalar)) :
  length h = 1 →
  ∃ p h', rnn_one_step [x] h = ([p], [h']).
Proof.
  destruct h as [|h0 [|??]]; [done| |done]. intros _.
  by eexists _, _.
Qed.

Lemma feed_step_single (h : list (list scalar)) (ix : nat) :
  length h = 1 → length (feed_step h ix) = 1.
Proof.
  intros Hh. unfold feed_step.
  destruct (rnn_one_step_single (Z.of_nat ix) h Hh) as (p & h' & ->). done.
Qed.

Lemma replay_single (h : list (list scalar)) (ixs : list nat) :
  length h = 1 → length (foldl feed_step h ixs) = 1.
Proof.
  revert h. induction ixs as [|ix ixs IH]; intros h Hh; [done|].
  simpl. apply IH. by apply feed_step_single.
Qed.

Lemma generate_body_step (xs : list nat) (s : session) (a x_last ix : nat)
    (p h' : list scalar) (g : rng) :
  last xs = Some x_last →
  rnn_one_step [Z.of_nat x_last] (h_t s) = ([p], [h']) →
  random_choice (np_random s) (n_tokens tokens) p = (ix, g) →
  generate_body (xs, s) a = Ok (xs ++ [ix], Session [h'] g (S (draws s))).
Proof.
  intros Hlast Hstep Hchoice. unfold generate_body, py_last.
  rewrite Hlast, result_bind_Ok, Hstep. unfold py_index. cbn [lookup list_lookup].
  by rewrite result_bind_Ok, Hchoice.
Qed.

(** The generation loop runs its [n] iterations: each appends one sampled id
    and nothing ends it early. *)
Lemma generate_loop (n : nat) :
  choice_in_range → 0 < n_tokens tokens →
  ∀ a (x_sequence : list nat) (s : session),
    x_sequence ≠ [] → length (h_t s) = 1 →
    ∃ generated s',
      for_in (seq a n) generate_body (x_sequence, s)
      = Ok (x_sequence ++ generated, s')
      ∧ length generated = n
      ∧ Forall (fun i => i < n_tokens tokens) generated
      ∧ draws s' = draws s + n
      ∧ length (h_t s') = 1.
Proof.
  intros Hchoice Hpos. induction n as [|n IH]; intros a xs s Hne Hh.
  - exists [], s. rewrite app_nil_r. simpl. repeat split; [done | lia | done].
  - cbn [seq for_in].
    destruct (last xs) as [x_last|] eqn:Hlast;
      [|by apply last_None in Hlast].
    destruct (rnn_one_step_single (Z.of_nat x_last) (h_t s) Hh)
      as (p & h' & Hstep).
    pose proof (Hchoice (np_random s) (n_tokens tokens) p Hpos) as Hlt.
    destruct (random_choice (np_random s) (n_tokens tokens) p) as [ix g] eqn:Hrc.
    rewrite (generate_body_step _ _ _ _ _ _ _ _ Hlast Hstep Hrc), result_bind_Ok.
    destruct (IH (S a) (xs ++ [ix]) (Session [h'] g (S (draws s))))
      as (gen & s' & Hrun & Hlen & Hrange & Hdraws & Hh');
      [by destruct xs | done |].
    exists (ix :: gen), s'. rewrite Hrun, <- (assoc_L (++)).
    repeat split; [simpl; lia | by constructor | simpl in *; lia | done].
Qed.

Lemma decode_without_pad_chars (xs : list nat) (cs : list ascii) :
  (fun i => tokens !! i) <$> xs = Some <$> cs →
  decode_without_pad tokens xs = Ok (filter (fun c => c ≠ pad_token) cs).
Proof.
  revert cs. induction xs as [|ix xs IH]; intros [|c cs] Heq; try done.
  rewrite !fmap_cons in Heq. injection Heq as Hc Hrest.
  cbn [decode_without_pad]. rewrite (py_index_Some _ _ _ Hc), result_bind_Ok.
  rewrite (IH cs Hrest), result_bind_Ok.
  destruct (decide (c = pad_token)) as [->|Hne].
  - by rewrite filter_cons_False by (intros ?; done).
  - by rewrite filter_cons_True.
Qed.

Lemma ids_in_range_decode (xs : list nat) :
  Forall (fun i => i < n_tokens tokens) xs →
  ∃ cs, (fun i => tokens !! i) <$> xs = Some <$> cs.
Proof.
  induction 1 as [|ix xs Hix _ [cs IH]]; [by exists []|].
  apply lookup_lt_is_Some in Hix as [c Hc].
  exists (c :: cs). by rewrite !fmap_cons, Hc, IH.
Qed.

Lemma chars_join (l : list ascii) : chars (join l) = l.
Proof. apply String.list_ascii_of_string_of_list_ascii. Qed.

(** What [generate_sample] returns for a non-empty seed over the
    vocabulary, whatever its first symbol. *)
Lemma generate_sample_spec (seed : string) (max_length : Z) (s : session) :
  choice_in_range →
  in_vocabulary tokens seed →
  seed ≠ EmptyString →
  ∃ (generated : list nat) (gen_chars : list ascii) (s' : session),
    generate_sample seed max_length s
    = Ok (join (filter (fun c => c ≠ pad_token) (chars seed ++ gen_chars)), s')
    ∧ length generated = Z.to_nat (max_length - Z.of_nat (len seed))
    ∧ (fun i => tokens !! i) <$> generated = Some <$> gen_chars
    ∧ draws s' = draws s + Z.to_nat (max_length - Z.of_nat (len seed)).
Proof.
  intros Hchoice Hv Hne. unfold generate_sample.
  rewrite (getitem_encode _ Hv), result_bind_Ok. cbv zeta.
  assert (encode tokens seed ≠ []) as Hids.
  { intros Hnil. pose proof (encode_length _ _ Hv) as Hlen.
    rewrite Hnil in Hlen. destruct seed; [done | simpl in Hlen; lia]. }
  assert (0 < n_tokens tokens) as Hpos.
  { pose proof (encode_in_range seed) as Hr.
    destruct (encode tokens seed) as [|i ids]; [done|].
    apply Forall_cons in Hr as [Hi _]. lia. }
  set (n := Z.to_nat (max_length - Z.of_nat (len seed))).
  set (s0 := Session _ _ _).
  destruct (generate_loop n Hchoice Hpos 0 (encode tokens seed) s0 Hids)
    as (gen & s' & Hrun & Hlen & Hrange & Hdraws & _).
  { subst s0. cbn [h_t]. by apply replay_single. }
  rewrite Hrun, result_bind_Ok.
  destruct (ids_in_range_decode gen Hrange) as [gen_chars Hgen].
  rewrite (decode_without_pad_chars _ (chars seed ++ gen_chars)), result_bind_Ok.
  - exists gen, gen_chars, s'. done.
  - by rewrite !fmap_app, (encode_decode _ _ Hv), Hgen.
Qed.


(** The sampler's side of C8: [token_to_id[token]] raises [KeyError], a
    [LookupError], for a symbol outside the vocabulary. *)
Lemma generate_sample_absent_symbol_KeyError (seed : string) (max_length : Z)
    (s : session) :
  ¬ in_vocabulary tokens seed →
  generate_sample seed max_length s = Raise KeyError
  ∧ is_LookupError KeyError = true.
Proof.
  intros Hnv. split; [|done]. unfold generate_sample.
  by rewrite (getitem_absent _ Hnv).
Qed.

End SamplerFacts.

(** ** Running the sampler *)

Lemma toy_choice_in_range : choice_in_range Toy.random_choice.
Proof.
  intros g n p Hn. unfold Toy.random_choice. cbn [fst].
  apply Nat.mod_upper_bound. lia.
Qed.


(** A seed that does not begin with the start symbol is sampled from like any
    other: no [ValueError], an output string instead. *)
Lemma generate_sample_seed_check_counterexample :
  head (chars "a") ≠ Some start_token
  ∧ fst <$> generate_sample 0%Z [" "; "a"; "#"]%char Toy.embed_x Toy.get_h_next
              (Toy.get_probas 3) Toy.random_choice "a" 4 (Session [] 0 0)
    = Ok "a a"
  ∧ generate_sample 0%Z [" "; "a"; "#"]%char Toy.embed_x Toy.get_h_next
      (Toy.get_probas 3) Toy.random_choice "a" 4 (Session [] 0 0)
    ≠ Raise ValueError.
Proof.
  split; [done|]. split; [vm_compute; reflexivity|].
  intros H. vm_compute in H. discriminate H.
Qed.

(** ** Padding in the batches of the training loop *)

Lemma corpus_names_in_vocabulary (names : list string) (tokens : list ascii)
    (chosen : list string) :
  is_vocabulary_of names tokens →
  Forall (fun name => name ∈ names) chosen →
  Forall (in_vocabulary tokens) chosen.
Proof.
  intros [_ Hmem] Hchosen. eapply Forall_impl; [exact Hchosen|].
  intros name Hname. apply Forall_forall. intros c Hc.
  apply Hmem. by exists name.
Qed.

Lemma pad_token_not_in_vocabulary (lines : list string) (tokens : list ascii) :
  is_vocabulary_of (with_start_token lines) tokens →
  Forall (fun line => pad_token ∉ chars line) lines →
  pad_token ∉ tokens.
Proof.
  intros [_ Hmem] Hlines Hpad.
  apply Hmem in Hpad as (name & Hname & Hin).
  unfold with_start_token in Hname.
  apply list_elem_of_fmap in Hname as (line & -> & Hline).
  cbn in Hin. apply elem_of_cons in Hin as [Heq|Hin]; [done|].
  eapply Forall_forall in Hlines; [|exact Hline]. done.
Qed.

(** C4 (what the code does).  The training loop pads with the integer [0],
    the default of [pad], and the vocabulary is the set of the corpus's
    symbols only.  On a corpus that does not contain ['#'], under every
    ordering of the vocabulary: a row of a batch whose name is shorter than
    [MAX_LENGTH] holds [0] right after the name, while ['#'] has no id at all
    and [0] is the id of another symbol. *)
Theorem training_batch_padding_is_not_pad_id (lines : list string)
    (tokens : list ascii) (chosen : list string) (r : nat) (name : string) :
  is_vocabulary_of (with_start_token lines) tokens →
  Forall (fun line => pad_token ∉ chars line) lines →
  Forall (fun name => name ∈ with_start_token lines) chosen →
  chosen !! r = Some name →
  len name < longest (with_start_token lines) →
  ∃ m row,
    to_matrix tokens chosen (Some (Z.of_nat (longest (with_start_token lines)))) 0
    = Ok m
    ∧ mrows m !! r = Some row
    ∧ take (len name) row = Z.of_nat <$> encode tokens name
    ∧ row !! len name = Some 0%Z
    ∧ token_to_id tokens !! pad_token = None
    ∧ tokens !! 0 ≠ Some pad_token.
Proof.
  intros Hvoc Hlines Hchosen Hr Hshort.
  pose proof (corpus_names_in_vocabulary _ _ _ Hvoc Hchosen) as Hv.
  pose proof (pad_token_not_in_vocabulary _ _ Hvoc Hlines) as Hpad.
  assert (Forall (fun name => len name ≤ longest (with_start_token lines)) chosen)
    as Hfit.
  { eapply Forall_impl; [exact Hchosen|]. intros n. apply len_le_longest. }
  rewrite to_matrix_explicit, Nat2Z.id by lia.
  rewrite (to_matrix_rows_Ok _ _ _ _ Hv Hfit), result_bind_Ok.
  assert (in_vocabulary tokens name) as Hvn.
  { eapply Forall_forall in Hv; [done|]. by eapply list_elem_of_lookup_2. }
  pose proof (encode_length _ _ Hvn) as Hlen.
  eexists _, _. split; [reflexivity|]. cbn [mrows].
  split; [by rewrite list_lookup_fmap, Hr|].
  split; [|split; [|split]].
  - rewrite take_app_length'; [done|]. by rewrite length_fmap.
  - rewrite lookup_app_r by (rewrite length_fmap; lia).
    rewrite length_fmap, Hlen, Nat.sub_diag.
    apply lookup_replicate_2. lia.
  - by apply token_to_id_None.
  - intros H0. apply Hpad. by eapply list_elem_of_lookup_2.
Qed.

Lemma training_batch_padding_is_not_pad_id_witness :
  is_vocabulary_of (with_start_token Toy.lines) Toy.tokens ∧
  Forall (fun line => pad_token ∉ chars line) Toy.lines ∧
  Forall (fun name => name ∈ with_start_token Toy.lines) Toy.names ∧
  Toy.names !! 0 = Some " Aa" ∧
  len " Aa" < longest (with_start_token Toy.lines) ∧
  ∃ m row,
    to_matrix Toy.tokens Toy.names
              (Some (Z.of_nat (longest (with_start_token Toy.lines)))) 0
    = Ok m
    ∧ mrows m !! 0 = Some row
    ∧ row !! len " Aa" = Some 0%Z
    ∧ token_to_id Toy.tokens !! pad_token = None.
Proof.
  assert (Forall (fun line => pad_token ∉ chars line) Toy.lines) as Hlines.
  { apply (bool_decide_unpack _). vm_compute. exact I. }
  assert (Forall (fun name => name ∈ with_start_token Toy.lines) Toy.names)
    as Hchosen.
  { apply Forall_forall. intros name Hname. exact Hname. }
  assert (len " Aa" < longest (with_start_token Toy.lines)) as Hshort.
  { apply (bool_decide_unpack _). vm_compute. exact I. }
  split; [apply tokens_in_order_is_vocabulary|]. split; [exact Hlines|].
  split; [exact Hchosen|]. split; [reflexivity|]. split; [exact Hshort|].
  destruct (training_batch_padding_is_not_pad_id Toy.lines Toy.tokens
              Toy.names 0 " Aa" (tokens_in_order_is_vocabulary _) Hlines
              Hchosen eq_refl Hshort)
    as (m & row & Hm & Hrow & _ & Hpad & Hnone & _).
  exists m, row.
  exact (conj Hm (conj Hrow (conj Hpad Hnone))).
Defined.

(** ** Sample runs *)

Example to_matrix_two_names :
  to_matrix [" "; "a"; "b"; "c"; "d"]%char [" ab"; " abcd"] None 0
  = Ok (Matrix 5 [[0; 1; 2; 0; 0]; [0; 1; 2; 3; 4]]%Z).
Proof. vm_compute. reflexivity. Qed.

Example to_matrix_pad_argument :
  to_matrix [" "; "a"; "b"; "c"; "d"]%char [" ab"; " abcd"] (Some 6%Z) 9
  = Ok (Matrix 6 [[0; 1; 2; 9; 9; 9]; [0; 1; 2; 3; 4; 9]]%Z).
Proof. vm_compute. reflexivity. Qed.

Example to_matrix_name_too_long :
  to_matrix [" "; "a"; "b"; "c"; "d"]%char [" ab"; " abcd"] (Some 4%Z) 0
  = Raise ValueError.
Proof. vm_compute. reflexivity. Qed.

Example to_matrix_negative_width :
  to_matrix [" "; "a"]%char [" a"] (Some (-1)%Z) 0 = Raise ValueError.
Proof. vm_compute. reflexivity. Qed.

Example to_matrix_no_names :
  to_matrix [" "; "a"]%char [] None 0 = Raise ValueError.
Proof. vm_compute. reflexivity. Qed.

Example to_matrix_unknown_symbol_that_fits :
  to_matrix [" "; "a"]%char [" a?a"] (Some 4%Z) 0 = Raise TypeError.
Proof. vm_compute. reflexivity. Qed.

Example to_matrix_length_is_compared_first :
  to_matrix [" "; "a"]%char [" a?a"] (Some 2%Z) 0 = Raise ValueError.
Proof. vm_compute. reflexivity. Qed.

Example toy_vocabulary_size : n_tokens Toy.tokens = 53 ∧ Toy.MAX_LENGTH = 9.
Proof. vm_compute. done. Qed.

Example generate_sample_filters_pad :
  fst <$> generate_sample 0%Z [" "; "a"; "#"]%char Toy.embed_x Toy.get_h_next
            (Toy.get_probas 3) Toy.random_choice " a" 8 (Session [] 1 0)
  = Ok " aa a ".
Proof. vm_compute. reflexivity. Qed.

Example generate_sample_empty_seed :
  generate_sample 0%Z [" "; "a"; "#"]%char Toy.embed_x Toy.get_h_next
    (Toy.get_probas 3) Toy.random_choice EmptyString 3 (Session [] 0 0)
  = Raise IndexError.
Proof. vm_compute. reflexivity. Qed.

Example generate_sample_unknown_symbol :
  generate_sample 0%Z [" "; "a"; "#"]%char Toy.embed_x Toy.get_h_next
    (Toy.get_probas 3) Toy.random_choice " ?" 3 (Session [] 0 0)
  = Raise KeyError.
Proof. vm_compute. reflexivity. Qed.

Example train_step_toy :
  train_step 0%Z 1%Z [" "; "a"; "b"]%char 3 Toy.embed_x Toy.get_h_next
             (Toy.get_probas 3) Toy.categorical_crossentropy
             Toy.tf_reduce_mean (Matrix 3 [[0; 1; 2]; [0; 2; 0]]%Z)
  = Ok 1%Z.
Proof. vm_compute. reflexivity. Qed.

(** * Further properties of the code *)

(** ** The vocabulary dictionary (lines 72-95) *)

Section DictionaryFacts.

Variable tokens : list ascii.
Local Abbreviation token_to_id := (token_to_id tokens).
Local Abbreviation set_token_id := (set_token_id tokens).

(** X1.  When [tokens] has no repeated symbol, [token_to_id] and [tokens]
    are inverse to each other: [token_to_id[c] = i] exactly when
    [tokens[i] = c]. *)
Theorem token_to_id_inverse_of_tokens (c : ascii) (i : nat) :
  NoDup tokens →
  token_to_id !! c = Some i ↔ tokens !! i = Some c.
Proof.
  intros Hnodup. split; [apply token_to_id_Some|].
  intros Hi.
  destruct (token_to_id_elem tokens c) as (j & Hj & Htj);
    [by eapply list_elem_of_lookup_2|].
  by rewrite (NoDup_lookup _ _ _ _ Hnodup Hi Htj).
Qed.

Lemma token_ids_prefix_size_le (k : nat) :
  size (foldl set_token_id ∅ (seq 0 k)) ≤ k.
Proof.
  induction k as [|k IH]; [simpl; by rewrite map_size_empty|].
  rewrite seq_S, foldl_app. simpl. unfold set_token_id at 1.
  destruct (tokens !! k) as [c|]; [|lia].
  destruct (foldl set_token_id ∅ (seq 0 k) !! c) eqn:Hc.
  - rewrite map_size_insert_Some by done. lia.
  - rewrite map_size_insert_None by done. lia.
Qed.

Lemma token_ids_prefix_size (k : nat) :
  k ≤ length tokens →
  size (foldl set_token_id ∅ (seq 0 k)) = k ↔ NoDup (take k tokens).
Proof.
  induction k as [|k IH]; intros Hk.
  - rewrite take_0. simpl. split; [constructor | by rewrite map_size_empty].
  - destruct (lookup_lt_is_Some_2 tokens k) as [c Hc]; [lia|].
    rewrite (take_S_r _ _ _ Hc), seq_S, foldl_app. simpl.
    unfold set_token_id at 1. rewrite Hc.
    pose proof (token_ids_prefix_size_le k) as Hle.
    rewrite NoDup_app, <- IH by lia.
    destruct (foldl set_token_id ∅ (seq 0 k) !! c) as [j|] eqn:Hj.
    + rewrite map_size_insert_Some by done. split; [lia|].
      intros (_ & Hfresh & _).
      apply token_ids_prefix_sound in Hj as [Hjk Htj].
      destruct (Hfresh c); [|apply list_elem_of_singleton; done].
      apply elem_of_take. by exists j.
    + rewrite map_size_insert_None by done. split.
      * intros Hsize. split; [lia|]. split; [|apply NoDup_singleton].
        intros x Hx ->%list_elem_of_singleton.
        apply elem_of_take in Hx as (j & Htj & Hjk).
        destruct (token_ids_prefix_complete tokens k c j Hjk Htj) as [? Hsome].
        congruence.
      * intros (Hsize & _). lia.
Qed.

(** X2.  The check on line 95, [len(tokens) == len(token_to_id)], holds
    exactly when [tokens] has no repeated symbol. *)
Theorem dictionary_size_assertion :
  size token_to_id = n_tokens tokens ↔ NoDup tokens.
Proof.
  unfold token_to_id, n_tokens.
  rewrite token_ids_prefix_size by done. by rewrite take_ge.
Qed.

End DictionaryFacts.

Lemma token_to_id_inverse_of_tokens_witness :
  NoDup [" "; "a"; "b"]%char ∧
  (token_to_id [" "; "a"; "b"]%char !! "b"%char = Some 2
   ↔ [" "; "a"; "b"]%char !! 2 = Some "b"%char).
Proof.
  assert (NoDup [" "; "a"; "b"]%char) as Hnodup.
  { apply (bool_decide_unpack _). vm_compute. exact I. }
  split; [exact Hnodup|].
  exact (token_to_id_inverse_of_tokens [" "; "a"; "b"]%char "b"%char 2 Hnodup).
Defined.

(** ** The batcher (lines 101-111) *)

Lemma mapM_result_Forall2 {A B} (f : A → result B) (l : list A) (k : list B) :
  mapM f l = Ok k → Forall2 (fun x y => f x = Ok y) l k.
Proof.
  revert k. induction l as [|x l IH]; intros k.
  - intros [= <-]. constructor.
  - rewrite mapM_result_cons. destruct (f x) as [y|e] eqn:Hx; [|done].
    rewrite result_bind_Ok. destruct (mapM f l) as [k'|e]; [|done].
    intros [= <-]. constructor; [done | by apply IH].
Qed.

Lemma mapM_result_first_Raise {A B} (f : A → result B) (pre : list A) (x : A)
    (rest : list A) (e : py_error) :
  Forall (fun a => ∃ b, f a = Ok b) pre →
  f x = Raise e →
  mapM f (pre ++ x :: rest) = Raise e.
Proof.
  intros Hpre Hx. induction Hpre as [|a pre [b Hb] _ IH].
  - rewrite app_nil_l, mapM_result_cons, Hx. done.
  - rewrite <- app_comm_cons, mapM_result_cons, Hb, result_bind_Ok, IH. done.
Qed.

Section BatcherExtras.

Variable tokens : list ascii.
Local Abbreviation in_vocabulary := (in_vocabulary tokens).
Local Abbreviation to_matrix := (to_matrix tokens).
Local Abbreviation assigned_row := (assigned_row tokens).

Lemma as_int_array_length (v : list (option nat)) (vals : list Z) :
  as_int_array v = Ok vals → length vals = length v.
Proof.
  revert vals. induction v as [|[i|] v IH]; intros vals; [by intros [= <-]| |done].
  cbn [as_int_array]. destruct (as_int_array v) as [l|e]; [|done].
  intros [= <-]. simpl. f_equal. by apply IH.
Qed.

Lemma assigned_row_length (w : nat) (pad : Z) (name : string) (row : list Z) :
  assigned_row w pad name = Ok row → length row = w.
Proof.
  unfold assigned_row. cbv zeta. case_decide as Hk.
  - destruct (as_int_array _) as [vals|e] eqn:Hvals; [|done].
    rewrite result_bind_Ok. intros [= <-].
    apply as_int_array_length in Hvals.
    rewrite length_app, length_replicate. lia.
  - destruct (map_get tokens name) as [|x [|??]]; [done| |done].
    destruct (as_int_array _) as [vals|e] eqn:Hvals; [|done].
    rewrite result_bind_Ok. intros [= <-].
    apply as_int_array_length in Hvals. rewrite length_replicate in Hvals.
    rewrite length_app, length_replicate.
    cbn [length] in *. destruct w; simpl in *; lia.
Qed.

(** The width [to_matrix] settles on, when it gets that far. *)
Lemma to_matrix_Ok_rows (names : list string) (max_len : option Z) (pad : Z)
    (m : matrix) :
  to_matrix names max_len pad = Ok m →
  ncols m = match max_len with
            | Some n => if decide (n = 0%Z) then longest names else Z.to_nat n
            | None => longest names
            end
  ∧ Forall2 (fun name row => assigned_row (ncols m) pad name = Ok row)
            names (mrows m).
Proof.
  intros Hm.
  assert (∃ w : nat,
    match max_len with
    | Some n => if decide (n = 0%Z) then Z.of_nat <$> py_max (len <$> names)
                else Ok n
    | None => Z.of_nat <$> py_max (len <$> names)
    end = Ok (Z.of_nat w)
    ∧ w = match max_len with
          | Some n => if decide (n = 0%Z) then longest names else Z.to_nat n
          | None => longest names
          end) as (w & Hw & Hwidth).
  { unfold to_matrix in Hm.
    destruct max_len as [n|]; [destruct (decide (n = 0%Z))|].
    - destruct names; [done|]. eexists. split; reflexivity.
    - rewrite result_bind_Ok in Hm. unfold np_zeros_plus in Hm.
      case_decide; [done|]. exists (Z.to_nat n). split; [f_equal; lia | done].
    - destruct names; [done|]. eexists. split; reflexivity. }
  rewrite (to_matrix_width _ _ _ _ w Hw) in Hm.
  destruct (mapM _ names) as [rows|e] eqn:Hrows; [|done].
  injection Hm as <-. cbn [ncols mrows]. split; [done|].
  by apply mapM_result_Forall2.
Qed.

(** X3.  Whatever the arguments, a matrix returned by [to_matrix] is
    rectangular, has one row per name, and its width is [max_len] when that
    is given and not [0], and the length of the longest name otherwise. *)
Theorem to_matrix_returns_rectangular (names : list string)
    (max_len : option Z) (pad : Z) (m : matrix) :
  to_matrix names max_len pad = Ok m →
  wf_matrix m
  ∧ nrows m = length names
  ∧ ncols m = match max_len with
              | Some n => if decide (n = 0%Z) then longest names else Z.to_nat n
              | None => longest names
              end.
Proof.
  intros Hm. destruct (to_matrix_Ok_rows _ _ _ _ Hm) as [Hcols Hrows].
  split; [|split; [|done]].
  - unfold wf_matrix. apply Forall_forall. intros row Hrow.
    apply list_elem_of_lookup_1 in Hrow as [r Hr].
    destruct (Forall2_lookup_r _ _ _ _ _ Hrows Hr) as (name & _ & Hname).
    by eapply assigned_row_length.
  - unfold nrows. symmetry. by eapply Forall2_length.
Qed.

End BatcherExtras.

Lemma to_matrix_returns_rectangular_witness :
  to_matrix [" "; "a"; "b"]%char [" ab"; " a"] (Some 4%Z) 7
  = Ok (Matrix 4 [[0; 1; 2; 7]; [0; 1; 7; 7]]%Z)
  ∧ wf_matrix (Matrix 4 [[0; 1; 2; 7]; [0; 1; 7; 7]]%Z)
  ∧ nrows (Matrix 4 [[0; 1; 2; 7]; [0; 1; 7; 7]]%Z) = 2.
Proof.
  assert (to_matrix [" "; "a"; "b"]%char [" ab"; " a"] (Some 4%Z) 7
          = Ok (Matrix 4 [[0; 1; 2; 7]; [0; 1; 7; 7]]%Z)) as Hm
    by (vm_compute; reflexivity).
  split; [exact Hm|].
  destruct (to_matrix_returns_rectangular _ _ _ _ _ Hm) as (Hwf & Hrows & _).
  exact (conj Hwf Hrows).
Defined.

Section BatcherContents.

Variable tokens : list ascii.
Local Abbreviation in_vocabulary := (in_vocabulary tokens).
Local Abbreviation to_matrix := (to_matrix tokens).
Local Abbreviation assigned_row := (assigned_row tokens).
Local Abbreviation encode := (encode tokens).

(** X4.  With a positive [max_len] that no name exceeds, names over the
    vocabulary give a matrix of exactly [max_len] columns; row [r] is the ids
    of name [r] followed by [pad], and decoding its first [len(name)] entries
    with [tokens] gives the name back. *)
Theorem to_matrix_explicit_rows (names : list string) (max_len : nat) (pad : Z) :
  0 < max_len →
  Forall in_vocabulary names →
  Forall (fun name => len name ≤ max_len) names →
  ∃ m, to_matrix names (Some (Z.of_nat max_len)) pad = Ok m
       ∧ ncols m = max_len
       ∧ mrows m = (fun name => (Z.of_nat <$> encode name)
                                  ++ replicate (max_len - len name) pad)
                   <$> names
       ∧ ∀ r name row, names !! r = Some name → mrows m !! r = Some row →
           (fun e => tokens !! Z.to_nat e) <$> take (len name) row
           = Some <$> chars name.
Proof.
  intros Hpos Hv Hfit.
  rewrite to_matrix_explicit, Nat2Z.id by lia.
  rewrite (to_matrix_rows_Ok _ _ _ _ Hv Hfit), result_bind_Ok.
  eexists. split; [reflexivity|]. cbn [ncols mrows].
  split; [done|]. split; [done|].
  intros r name row Hr. rewrite list_lookup_fmap, Hr. intros [= <-].
  assert (in_vocabulary name) as Hvn.
  { eapply Forall_forall in Hv; [done|]. by eapply list_elem_of_lookup_2. }
  rewrite take_app_length' by (by rewrite length_fmap, encode_length).
  rewrite <- list_fmap_compose, <- (encode_decode _ _ Hvn).
  apply list_fmap_ext. intros _ i _. simpl. by rewrite Nat2Z.id.
Qed.

(** X5.  Edge cases of the width: a negative [max_len] is a [ValueError]
    whatever the names; an empty list of names is a [ValueError] when
    [max_len] is omitted or [0] (the [max] of nothing) and an empty matrix of
    the requested width when [max_len] is positive. *)
Theorem to_matrix_width_edge_cases (names : list string) (max_len : Z) (pad : Z) :
  ((max_len < 0)%Z → to_matrix names (Some max_len) pad = Raise ValueError)
  ∧ to_matrix [] None pad = Raise ValueError
  ∧ to_matrix [] (Some 0%Z) pad = Raise ValueError
  ∧ ((0 < max_len)%Z →
     to_matrix [] (Some max_len) pad = Ok (Matrix (Z.to_nat max_len) [])).
Proof.
  split; [|split; [done|split; [done|]]].
  - intros Hneg. unfold to_matrix. rewrite decide_False by lia.
    rewrite result_bind_Ok. unfold np_zeros_plus. by rewrite decide_True.
  - intros Hpos. by rewrite to_matrix_explicit.
Qed.

(** X6.  With a positive [max_len], the first name that cannot be stored
    decides the error, whatever follows it: a name longer than [max_len] gives
    a [ValueError] (also when it has a symbol outside the vocabulary: the
    length is compared before any symbol is converted), a name that fits but
    has a symbol outside the vocabulary gives a [TypeError]. *)
Theorem to_matrix_first_bad_name (pre rest : list string) (name : string)
    (max_len : nat) (pad : Z) :
  0 < max_len →
  Forall (fun name => in_vocabulary name ∧ len name ≤ max_len) pre →
  (max_len < len name →
   to_matrix (pre ++ name :: rest) (Some (Z.of_nat max_len)) pad
   = Raise ValueError)
  ∧ (len name ≤ max_len → ¬ in_vocabulary name →
     to_matrix (pre ++ name :: rest) (Some (Z.of_nat max_len)) pad
     = Raise TypeError).
Proof.
  intros Hpos Hpre.
  assert (Forall (fun a => ∃ b, assigned_row max_len pad a = Ok b) pre) as Hok.
  { eapply Forall_impl; [exact Hpre|]. intros a [Hv Hle].
    eexists. by apply assigned_row_fits. }
  rewrite to_matrix_explicit, Nat2Z.id by lia. split.
  - intros Hlong.
    by rewrite (mapM_result_first_Raise _ _ _ _ ValueError Hok
                  (assigned_row_longer _ _ _ _ Hpos Hlong)).
  - intros Hle Hnv.
    by rewrite (mapM_result_first_Raise _ _ _ _ TypeError Hok
                  (assigned_row_absent _ _ _ _ Hle Hnv)).
Qed.

(** X7.  Asking for more columns than the longest name needs only adds
    [pad] columns on the right of the matrix obtained with [max_len]
    omitted. *)
Theorem to_matrix_wider_adds_padding (names : list string) (max_len : nat)
    (pad : Z) :
  names ≠ [] →
  Forall in_vocabulary names →
  0 < max_len →
  longest names ≤ max_len →
  ∃ m0, to_matrix names None pad = Ok m0
        ∧ to_matrix names (Some (Z.of_nat max_len)) pad
          = Ok (Matrix max_len
                  ((fun row => row ++ replicate (max_len - ncols m0) pad)
                     <$> mrows m0)).
Proof.
  intros Hne Hv Hpos Hle.
  assert (Forall (fun name => len name ≤ longest names) names) as Hfit0.
  { apply Forall_forall. intros name. apply len_le_longest. }
  assert (Forall (fun name => len name ≤ max_len) names) as Hfit.
  { eapply Forall_impl; [exact Hfit0|]. intros name Hn. simpl in Hn. lia. }
  rewrite to_matrix_default, (to_matrix_rows_Ok _ _ _ _ Hv Hfit0) by done.
  rewrite to_matrix_explicit, Nat2Z.id by lia.
  rewrite (to_matrix_rows_Ok _ _ _ _ Hv Hfit), !result_bind_Ok.
  eexists. split; [reflexivity|]. cbn [ncols mrows]. do 2 f_equal.
  rewrite <- list_fmap_compose. apply Forall_fmap_ext_1.
  eapply Forall_impl; [exact Hfit0|]. intros name Hn. simpl in *.
  rewrite <- (assoc_L (++)), <- replicate_add. do 2 f_equal. lia.
Qed.

(** X8.  With the default [pad = 0] and a non-empty vocabulary, every entry
    of a matrix built from names over the vocabulary is an id of the
    vocabulary: at least [0] and below [n_tokens]. *)
Theorem to_matrix_entries_are_ids (names : list string) (max_len : option Z)
    (m : matrix) :
  tokens ≠ [] →
  Forall in_vocabulary names →
  to_matrix names max_len 0 = Ok m →
  Forall (Forall (fun e => (0 ≤ e < Z.of_nat (n_tokens tokens))%Z)) (mrows m).
Proof.
  intros Htok Hv Hm.
  assert (0 < n_tokens tokens) as Hn.
  { unfold n_tokens. destruct tokens; [done | simpl; lia]. }
  destruct (to_matrix_Ok_rows _ _ _ _ _ Hm) as [_ Hrows].
  apply Forall_forall. intros row Hrow.
  apply list_elem_of_lookup_1 in Hrow as [r Hr].
  destruct (Forall2_lookup_r _ _ _ _ _ Hrows Hr) as (name & Hname & Hrow).
  assert (in_vocabulary name) as Hvn.
  { eapply Forall_forall in Hv; [done|]. by eapply list_elem_of_lookup_2. }
  assert (Forall (fun e => (0 ≤ e < Z.of_nat (n_tokens tokens))%Z)
                 (Z.of_nat <$> encode name)) as Hids.
  { apply Forall_fmap. eapply Forall_impl; [apply encode_in_range|].
    intros i Hi. simpl in *. lia. }
  assert (∀ k, Forall (fun e => (0 ≤ e < Z.of_nat (n_tokens tokens))%Z)
                      (replicate k 0%Z)) as Hpad.
  { intros k. apply Forall_replicate. lia. }
  unfold assigned_row in Hrow. cbv zeta in Hrow.
  rewrite (map_get_encode _ _ Hvn) in Hrow.
  case_decide.
  - rewrite as_int_array_Some, result_bind_Ok in Hrow.
    injection Hrow as <-. by apply Forall_app.
  - destruct (encode name) as [|i [|??]]; [done| |done].
    change (Some <$> [i]) with [Some i] in Hrow. cbv iota in Hrow.
    rewrite <- (fmap_replicate Some), as_int_array_Some, result_bind_Ok in Hrow.
    injection Hrow as <-. apply Forall_app. split; [|done].
    rewrite fmap_replicate. apply Forall_replicate.
    by apply Forall_cons in Hids as [? _].
Qed.

End BatcherContents.

Lemma to_matrix_explicit_rows_witness :
  0 < 4 ∧
  Forall (in_vocabulary [" "; "a"; "b"]%char) [" ab"; " a"] ∧
  Forall (fun name => len name ≤ 4) [" ab"; " a"] ∧
  ∃ m, to_matrix [" "; "a"; "b"]%char [" ab"; " a"] (Some (Z.of_nat 4)) 7 = Ok m
       ∧ ncols m = 4.
Proof.
  assert (Forall (in_vocabulary [" "; "a"; "b"]%char) [" ab"; " a"]) as Hv
    by (repeat constructor).
  assert (Forall (fun name => len name ≤ 4) [" ab"; " a"]) as Hfit
    by (repeat constructor).
  split; [lia|]. split; [exact Hv|]. split; [exact Hfit|].
  destruct (to_matrix_explicit_rows [" "; "a"; "b"]%char [" ab"; " a"] 4 7
              ltac:(lia) Hv Hfit) as (m & Hm & Hcols & _).
  exists m. exact (conj Hm Hcols).
Defined.

Lemma to_matrix_width_edge_cases_witness :
  ((-3) < 0)%Z ∧
  to_matrix [" "; "a"]%char [" a"] (Some (-3)%Z) 0 = Raise ValueError.
Proof.
  split; [lia|].
  exact (proj1 (to_matrix_width_edge_cases [" "; "a"]%char [" a"] (-3) 0)
               ltac:(lia)).
Defined.

Lemma to_matrix_first_bad_name_witness :
  0 < 2 ∧
  Forall (fun name => in_vocabulary [" "; "a"]%char name ∧ len name ≤ 2) [" a"] ∧
  2 < len " a?a" ∧
  to_matrix [" "; "a"]%char ([" a"] ++ " a?a" :: [" aaaa"]) (Some (Z.of_nat 2)) 0
  = Raise ValueError.
Proof.
  assert (Forall (fun name => in_vocabulary [" "; "a"]%char name ∧ len name ≤ 2)
                 [" a"]) as Hpre.
  { constructor; [|constructor]. split; [repeat constructor | simpl; lia]. }
  assert (2 < len " a?a") as Hlong by (simpl; lia).
  split; [lia|]. split; [exact Hpre|]. split; [exact Hlong|].
  exact (proj1 (to_matrix_first_bad_name [" "; "a"]%char [" a"] [" aaaa"]
                  " a?a" 2 0 ltac:(lia) Hpre) Hlong).
Defined.

Lemma to_matrix_wider_adds_padding_witness :
  [" ab"; " a"] ≠ [] ∧
  Forall (in_vocabulary [" "; "a"; "b"]%char) [" ab"; " a"] ∧
  0 < 5 ∧
  longest [" ab"; " a"] ≤ 5 ∧
  ∃ m0, to_matrix [" "; "a"; "b"]%char [" ab"; " a"] None 7 = Ok m0
        ∧ to_matrix [" "; "a"; "b"]%char [" ab"; " a"] (Some (Z.of_nat 5)) 7
          = Ok (Matrix 5 ((fun row => row ++ replicate (5 - ncols m0) 7%Z)
                            <$> mrows m0)).
Proof.
  assert (Forall (in_vocabulary [" "; "a"; "b"]%char) [" ab"; " a"]) as Hv
    by (repeat constructor).
  assert (longest [" ab"; " a"] ≤ 5) as Hle.
  { apply (bool_decide_unpack _). vm_compute. exact I. }
  split; [done|]. split; [exact Hv|]. split; [lia|]. split; [exact Hle|].
  exact (to_matrix_wider_adds_padding [" "; "a"; "b"]%char [" ab"; " a"] 5 7
           ltac:(done) Hv ltac:(lia) Hle).
Defined.

Lemma to_matrix_entries_are_ids_witness :
  [" "; "a"; "b"]%char ≠ [] ∧
  Forall (in_vocabulary [" "; "a"; "b"]%char) [" ab"; " a"] ∧
  to_matrix [" "; "a"; "b"]%char [" ab"; " a"] (Some 4%Z) 0
  = Ok (Matrix 4 [[0; 1; 2; 0]; [0; 1; 0; 0]]%Z) ∧
  Forall (Forall (fun e => (0 ≤ e < Z.of_nat (n_tokens [" "; "a"; "b"]%char))%Z))
         (mrows (Matrix 4 [[0; 1; 2; 0]; [0; 1; 0; 0]]%Z)).
Proof.
  assert (Forall (in_vocabulary [" "; "a"; "b"]%char) [" ab"; " a"]) as Hv
    by (repeat constructor).
  assert (to_matrix [" "; "a"; "b"]%char [" ab"; " a"] (Some 4%Z) 0
          = Ok (Matrix 4 [[0; 1; 2; 0]; [0; 1; 0; 0]]%Z)) as Hm
    by (vm_compute; reflexivity).
  split; [done|]. split; [exact Hv|]. split; [exact Hm|].
  exact (to_matrix_entries_are_ids [" "; "a"; "b"]%char [" ab"; " a"]
           (Some 4%Z) _ ltac:(done) Hv Hm).
Defined.

(** ** The recurrent step and the unrolled graph (lines 168-256) *)

Section TrainerExtras.

Context {scalar : Type}.
Variables fzero fone : scalar.
Variable tokens : list ascii.
Variable MAX_LENGTH : nat.
Variable embed_x : Z → list scalar.
Variables get_h_next get_probas : list scalar → list scalar.
Variable categorical_crossentropy : list scalar → list scalar → scalar.
Variable tf_reduce_mean : list scalar → scalar.

Local Abbreviation rnn_one_step := (rnn_one_step embed_x get_h_next get_probas).
Local Abbreviation transition := (transition embed_x get_h_next get_probas).
Local Abbreviation hidden_before :=
  (hidden_before fzero embed_x get_h_next get_probas).
Local Abbreviation predicted_at :=
  (predicted_at fzero embed_x get_h_next get_probas).
Local Abbreviation predicted_probas :=
  (predicted_probas fzero MAX_LENGTH embed_x get_h_next get_probas).
Local Abbreviation predictions_matrix :=
  (predictions_matrix fzero MAX_LENGTH embed_x get_h_next get_probas).
Local Abbreviation answers_matrix := (answers_matrix fzero fone tokens).

Lemma nth_take_S (row : list Z) (t : nat) :
  nth t (take (S t) row) 0%Z = nth t row 0%Z.
Proof. by rewrite !nth_lookup, lookup_take_lt by lia. Qed.

Lemma take_take_le {A} (l : list A) (t k : nat) :
  t ≤ k → take t (take k l) = take t l.
Proof. intros Htk. by rewrite take_take, Nat.min_l. Qed.

Lemma hidden_before_S (row : list Z) (t : nat) :
  hidden_before row (S t)
  = (transition (nth t row 0%Z) (hidden_before row t)).2.
Proof. reflexivity. Qed.

(** The hidden state before column [t] depends on columns [0 .. t-1] only. *)
Lemma hidden_before_prefix (row row' : list Z) (t : nat) :
  take t row = take t row' → hidden_before row t = hidden_before row' t.
Proof.
  induction t as [|t IH]; intros Heq; [done|].
  rewrite !hidden_before_S.
  rewrite <- (nth_take_S row), <- (nth_take_S row'), Heq.
  rewrite IH; [done|].
  rewrite <- (take_take_le row t (S t)), <- (take_take_le row' t (S t)) by lia.
  by rewrite Heq.
Qed.

Lemma predicted_at_prefix (row row' : list Z) (t : nat) :
  take (S t) row = take (S t) row' → predicted_at row t = predicted_at row' t.
Proof.
  intros Heq. unfold predicted_at.
  rewrite <- (nth_take_S row), <- (nth_take_S row'), Heq.
  rewrite (hidden_before_prefix row row' t); [done|].
  rewrite <- (take_take_le row t (S t)), <- (take_take_le row' t (S t)) by lia.
  by rewrite Heq.
Qed.

Lemma predicted_prefix_rows (row row' : list Z) (k n : nat) :
  take k row = take k row' →
  take k (predicted_at row <$> seq 0 n) = take k (predicted_at row' <$> seq 0 n).
Proof.
  intros Heq. rewrite <- !fmap_take, take_seq.
  apply Forall_fmap_ext_1, Forall_forall. intros t Ht.
  apply elem_of_seq in Ht. apply predicted_at_prefix.
  rewrite <- (take_take_le row (S t) k), <- (take_take_le row' (S t) k) by lia.
  by rewrite Heq.
Qed.

(** X9.  The graph never looks ahead: when two batches agree on their first
    [k] columns, the distributions predicted for steps [0 .. k-1] are the
    same; what stands in later columns (padding included) has no influence
    on them. *)
Theorem predicted_probas_causal (input input' : matrix) (k : nat) :
  take k <$> mrows input = take k <$> mrows input' →
  take k <$> predicted_probas input = take k <$> predicted_probas input'.
Proof.
  rewrite !predicted_probas_rows, <- !list_fmap_compose.
  generalize (mrows input') as rows'.
  induction (mrows input) as [|row rows IH]; intros [|row' rows'] Heq;
    try done.
  rewrite !fmap_cons in Heq. injection Heq as Hrow Hrows.
  rewrite !fmap_cons. f_equal; [|by apply IH].
  simpl. by apply predicted_prefix_rows.
Qed.

(** X10.  Shapes in the graph: one list of [MAX_LENGTH - 1] distributions per
    row, and, for a rectangular batch of the placeholder's width, as many
    flattened predictions as flattened answers, [rows * (MAX_LENGTH - 1)], each
    answer a vector of [n_tokens] entries. *)
Theorem training_graph_shapes (batch : matrix) :
  wf_matrix batch →
  ncols batch = MAX_LENGTH →
  length (predicted_probas batch) = nrows batch
  ∧ Forall (fun row => length row = MAX_LENGTH - 1) (predicted_probas batch)
  ∧ length (predictions_matrix batch) = nrows batch * (MAX_LENGTH - 1)
  ∧ length (answers_matrix batch) = nrows batch * (MAX_LENGTH - 1)
  ∧ Forall (fun answer => length answer = n_tokens tokens)
           (answers_matrix batch).
Proof.
  intros Hwf Hcols. unfold wf_matrix in Hwf. rewrite Hcols in Hwf.
  unfold predictions_matrix, answers_matrix, nrows.
  rewrite predicted_probas_rows. split; [by rewrite length_fmap|].
  split; [|split; [|split]].
  - apply Forall_fmap, Forall_forall. intros row _. simpl.
    by rewrite length_fmap, length_seq.
  - clear Hwf. induction (mrows batch) as [|row rows IH]; [done|].
    rewrite fmap_cons. cbn [concat length].
    rewrite length_app, IH, length_fmap, length_seq. lia.
  - rewrite length_fmap.
    induction Hwf as [|row rows Hrow _ IH]; [done|].
    rewrite fmap_cons. cbn [concat length].
    rewrite length_app, IH, length_drop. lia.
  - apply Forall_fmap, Forall_forall. intros i _. simpl.
    unfold tf_one_hot. by rewrite length_fmap, length_seq.
Qed.

(** X11.  A batch step treats the rows separately: its two results have as
    many rows as the shorter of its arguments, and stepping two batches placed
    one after the other gives the two results placed one after the other. *)
Theorem rnn_one_step_rows_independent (x1 x2 : list Z)
    (h1 h2 : list (list scalar)) :
  length x1 = length h1 →
  rnn_one_step (x1 ++ x2) (h1 ++ h2)
  = ((rnn_one_step x1 h1).1 ++ (rnn_one_step x2 h2).1,
     (rnn_one_step x1 h1).2 ++ (rnn_one_step x2 h2).2)
  ∧ length (rnn_one_step x1 h1).1 = length x1
  ∧ length (rnn_one_step x1 h1).2 = length x1.
Proof.
  intros Hlen. rewrite !rnn_one_step_rows. cbn [fst snd].
  rewrite !zip_with_app by done.
  by rewrite !length_zip_with_l_eq.
Qed.

End TrainerExtras.

Lemma predicted_probas_causal_witness :
  take 2 <$> mrows (Matrix 3 [[0; 1; 2]; [0; 2; 0]]%Z)
  = take 2 <$> mrows (Matrix 3 [[0; 1; 0]; [0; 2; 1]]%Z) ∧
  take 2 <$> predicted_probas 0%Z 3 Toy.embed_x Toy.get_h_next
               (Toy.get_probas 3) (Matrix 3 [[0; 1; 2]; [0; 2; 0]]%Z)
  = take 2 <$> predicted_probas 0%Z 3 Toy.embed_x Toy.get_h_next
                 (Toy.get_probas 3) (Matrix 3 [[0; 1; 0]; [0; 2; 1]]%Z).
Proof.
  split; [reflexivity|].
  exact (predicted_probas_causal 0%Z 3 Toy.embed_x Toy.get_h_next
           (Toy.get_probas 3) (Matrix 3 [[0; 1; 2]; [0; 2; 0]]%Z)
           (Matrix 3 [[0; 1; 0]; [0; 2; 1]]%Z) 2 eq_refl).
Defined.

Lemma training_graph_shapes_witness :
  wf_matrix (Matrix 3 [[0; 1; 2]; [0; 2; 0]]%Z) ∧
  ncols (Matrix 3 [[0; 1; 2]; [0; 2; 0]]%Z) = 3 ∧
  length (predictions_matrix 0%Z 3 Toy.embed_x Toy.get_h_next
            (Toy.get_probas 3) (Matrix 3 [[0; 1; 2]; [0; 2; 0]]%Z))
  = nrows (Matrix 3 [[0; 1; 2]; [0; 2; 0]]%Z) * (3 - 1).
Proof.
  assert (wf_matrix (Matrix 3 [[0; 1; 2]; [0; 2; 0]]%Z)) as Hwf
    by (repeat constructor).
  split; [exact Hwf|]. split; [reflexivity|].
  destruct (training_graph_shapes 0%Z 1%Z [" "; "a"; "b"]%char 3 Toy.embed_x
              Toy.get_h_next (Toy.get_probas 3)
              (Matrix 3 [[0; 1; 2]; [0; 2; 0]]%Z) Hwf eq_refl)
    as (_ & _ & Hpred & _).
  exact Hpred.
Defined.

Lemma rnn_one_step_rows_independent_witness :
  length [1%Z] = length [[5%Z]] ∧
  rnn_one_step Toy.embed_x Toy.get_h_next (Toy.get_probas 3)
               ([1%Z] ++ [2%Z]) ([[5%Z]] ++ [[6%Z]])
  = ((rnn_one_step Toy.embed_x Toy.get_h_next (Toy.get_probas 3)
                   [1%Z] [[5%Z]]).1
     ++ (rnn_one_step Toy.embed_x Toy.get_h_next (Toy.get_probas 3)
                      [2%Z] [[6%Z]]).1,
     (rnn_one_step Toy.embed_x Toy.get_h_next (Toy.get_probas 3)
                   [1%Z] [[5%Z]]).2
     ++ (rnn_one_step Toy.embed_x Toy.get_h_next (Toy.get_probas 3)
                      [2%Z] [[6%Z]]).2).
Proof.
  split; [reflexivity|].
  exact (proj1 (rnn_one_step_rows_independent Toy.embed_x Toy.get_h_next
                  (Toy.get_probas 3) [1%Z] [2%Z] [[5%Z]] [[6%Z]] eq_refl)).
Defined.

(** ** One iteration of the training loop (lines 272-274) *)

Lemma corpus_longest_pos (lines : list string) :
  lines ≠ [] → 0 < longest (with_start_token lines).
Proof.
  destruct lines as [|line lines]; [done|]. intros _.
  eapply Nat.lt_le_trans; [|apply (len_le_longest _ (String start_token line))].
  - simpl. lia.
  - unfold with_start_token. rewrite fmap_cons. apply elem_of_cons. by left.
Qed.

(** A batch of names of the corpus, padded to [MAX_LENGTH], goes through
    the graph. *)
Lemma training_batch_runs {scalar : Type} (fzero fone : scalar)
    (lines : list string) (tokens : list ascii) (chosen : list string)
    (embed_x : Z → list scalar) (get_h_next get_probas : list scalar → list scalar)
    (categorical_crossentropy : list scalar → list scalar → scalar)
    (tf_reduce_mean : list scalar → scalar) :
  is_vocabulary_of (with_start_token lines) tokens →
  lines ≠ [] →
  Forall (fun name => name ∈ with_start_token lines) chosen →
  ∃ batch,
    to_matrix tokens chosen
              (Some (Z.of_nat (longest (with_start_token lines)))) 0
    = Ok batch
    ∧ mrows batch
      = (fun name => (Z.of_nat <$> encode tokens name)
                       ++ replicate
                            (longest (with_start_token lines) - len name) 0%Z)
        <$> chosen
    ∧ ncols batch = longest (with_start_token lines)
    ∧ wf_matrix batch
    ∧ train_step fzero fone tokens (longest (with_start_token lines)) embed_x
                 get_h_next get_probas categorical_crossentropy tf_reduce_mean
                 batch
      = Ok (tf_reduce_mean
              (spec_position_losses fzero fone tokens
                 (longest (with_start_token lines)) embed_x get_h_next
                 get_probas categorical_crossentropy batch)).
Proof.
  intros Hvoc Hne Hchosen.
  pose proof (corpus_longest_pos lines Hne) as Hpos.
  pose proof (corpus_names_in_vocabulary _ _ _ Hvoc Hchosen) as Hv.
  assert (Forall (fun name => len name ≤ longest (with_start_token lines)) chosen)
    as Hfit.
  { eapply Forall_impl; [exact Hchosen|]. intros n. apply len_le_longest. }
  rewrite to_matrix_explicit, Nat2Z.id by lia.
  rewrite (to_matrix_rows_Ok _ _ _ _ Hv Hfit), result_bind_Ok.
  eexists. split; [reflexivity|].
  assert (wf_matrix
            (Matrix (longest (with_start_token lines))
               ((fun name => (Z.of_nat <$> encode tokens name)
                               ++ replicate
                                    (longest (with_start_token lines) - len name)
                                    0%Z) <$> chosen))) as Hwf.
  { unfold wf_matrix. cbn [ncols mrows]. apply Forall_fmap.
    apply Forall_forall. intros name Hname. simpl.
    assert (in_vocabulary tokens name) as Hvn by (by eapply Forall_forall in Hv).
    assert (len name ≤ longest (with_start_token lines)) as Hle
      by (by eapply Forall_forall in Hfit).
    rewrite length_app, length_fmap, length_replicate.
    rewrite (encode_length _ _ Hvn). lia. }
  split; [done|]. split; [done|]. split; [exact Hwf|].
  unfold train_step. rewrite decide_True by done.
  unfold loss. by rewrite loss_positions.
Qed.

(** X12.  Every batch the training loop can build is accepted by the graph:
    for any selection of names of the corpus, [to_matrix] with
    [max_len=MAX_LENGTH] returns a rectangular matrix with one row per selected
    name and [MAX_LENGTH] columns, and [train_step] on it returns a loss, the
    mean over all its positions, and no exception. *)
Theorem training_batch_is_accepted {scalar : Type} (fzero fone : scalar)
    (lines : list string) (tokens : list ascii) (chosen : list string)
    (embed_x : Z → list scalar) (get_h_next get_probas : list scalar → list scalar)
    (categorical_crossentropy : list scalar → list scalar → scalar)
    (tf_reduce_mean : list scalar → scalar) :
  is_vocabulary_of (with_start_token lines) tokens →
  lines ≠ [] →
  Forall (fun name => name ∈ with_start_token lines) chosen →
  ∃ batch,
    to_matrix tokens chosen
              (Some (Z.of_nat (longest (with_start_token lines)))) 0
    = Ok batch
    ∧ nrows batch = length chosen
    ∧ ncols batch = longest (with_start_token lines)
    ∧ wf_matrix batch
    ∧ train_step fzero fone tokens (longest (with_start_token lines)) embed_x
                 get_h_next get_probas categorical_crossentropy tf_reduce_mean
                 batch
      = Ok (tf_reduce_mean
              (spec_position_losses fzero fone tokens
                 (longest (with_start_token lines)) embed_x get_h_next
                 get_probas categorical_crossentropy batch)).
Proof.
  intros Hvoc Hne Hchosen.
  destruct (training_batch_runs fzero fone lines tokens chosen embed_x
              get_h_next get_probas categorical_crossentropy tf_reduce_mean
              Hvoc Hne Hchosen) as (batch & Hm & Hrows & Hcols & Hwf & Hstep).
  exists batch. split; [exact Hm|].
  split; [unfold nrows; by rewrite Hrows, length_fmap|].
  split; [exact Hcols|]. split; [exact Hwf | exact Hstep].
Qed.

Lemma training_batch_is_accepted_witness :
  is_vocabulary_of (with_start_token Toy.lines) Toy.tokens ∧
  Toy.lines ≠ [] ∧
  Forall (fun name => name ∈ with_start_token Toy.lines) [" Al"; " Florence"] ∧
  ∃ batch,
    to_matrix Toy.tokens [" Al"; " Florence"]
              (Some (Z.of_nat (longest (with_start_token Toy.lines)))) 0
    = Ok batch
    ∧ nrows batch = length [" Al"; " Florence"].
Proof.
  assert (Forall (fun name => name ∈ with_start_token Toy.lines)
                 [" Al"; " Florence"]) as Hchosen.
  { apply (bool_decide_unpack _). vm_compute. exact I. }
  split; [apply tokens_in_order_is_vocabulary|]. split; [done|].
  split; [exact Hchosen|].
  destruct (training_batch_is_accepted 0%Z 1%Z Toy.lines Toy.tokens
              [" Al"; " Florence"] Toy.embed_x Toy.get_h_next
              (Toy.get_probas 53) Toy.categorical_crossentropy
              Toy.tf_reduce_mean (tokens_in_order_is_vocabulary _)
              ltac:(done) Hchosen) as (batch & Hm & Hrows & _).
  exists batch. exact (conj Hm Hrows).
Defined.

(** ** The sampler (lines 293-324) *)

Section SamplerExtras.

Context {scalar rng : Type}.
Variable fzero : scalar.
Variable tokens : list ascii.
Variable embed_x : Z → list scalar.
Variables get_h_next get_probas : list scalar → list scalar.
Variable random_choice : rng → nat → list scalar → nat * rng.

Local Abbreviation rnn_one_step := (rnn_one_step embed_x get_h_next get_probas).
Local Abbreviation transition := (transition embed_x get_h_next get_probas).
Local Abbreviation hidden_before :=
  (hidden_before fzero embed_x get_h_next get_probas).
Local Abbreviation predicted_at :=
  (predicted_at fzero embed_x get_h_next get_probas).
Local Abbreviation feed_step := (feed_step embed_x get_h_next get_probas).
Local Abbreviation generate_body :=
  (generate_body tokens embed_x get_h_next get_probas random_choice).
Local Abbreviation generate_sample :=
  (generate_sample fzero tokens embed_x get_h_next get_probas random_choice).
Local Abbreviation generate_samples :=
  (generate_samples fzero tokens embed_x get_h_next get_probas random_choice).
Local Abbreviation autoregressive_sample :=
  (autoregressive_sample fzero tokens embed_x get_h_next get_probas
                         random_choice).
Local Abbreviation choice_in_range := (choice_in_range random_choice).
Local Abbreviation session := (@session scalar rng).

(** X14.  An empty seed: with a positive [max_length] the first iteration
    reads [x_sequence[-1]] of an empty list, an [IndexError]; with
    [max_length <= 0] nothing is drawn and the empty string is returned. *)
Theorem generate_sample_empty_seed_cases (max_length : Z) (s : session) :
  ((0 < max_length)%Z →
   generate_sample EmptyString max_length s = Raise IndexError)
  ∧ ((max_length ≤ 0)%Z →
     generate_sample EmptyString max_length s
     = Ok (EmptyString, Session (tf_zeros fzero 1) (np_random s) (draws s))).
Proof.
  unfold generate_sample. cbn [chars String.list_ascii_of_string len String.length].
  split; intros Hml.
  - destruct (Z.to_nat (max_length - Z.of_nat 0)) as [|n] eqn:Hn; [lia|].
    reflexivity.
  - replace (Z.to_nat (max_length - Z.of_nat 0)) with 0 by lia.
    reflexivity.
Qed.

(** X15.  Without budget ([max_length] not above the length of the seed) a
    seed over the vocabulary comes back with its pad symbols removed; no id
    is drawn and NumPy's generator is left as it was. *)
Theorem generate_sample_no_budget (seed : string) (max_length : Z) (s : session) :
  in_vocabulary tokens seed →
  (max_length ≤ Z.of_nat (len seed))%Z →
  generate_sample seed max_length s
  = Ok (join (filter (fun c => c ≠ pad_token) (chars seed)),
        Session (foldl feed_step (tf_zeros fzero 1) (but_last (encode tokens seed)))
                (np_random s) (draws s)).
Proof.
  intros Hv Hml. unfold generate_sample.
  rewrite (getitem_encode _ _ Hv), result_bind_Ok. cbv zeta.
  replace (Z.to_nat (max_length - Z.of_nat (len seed))) with 0 by lia.
  cbn [seq for_in]. rewrite result_bind_Ok.
  rewrite (decode_without_pad_chars _ _ (chars seed)); [done|].
  by apply encode_decode.
Qed.

(** X16.  For any [max_length], the result for a non-empty seed over the
    vocabulary starts with the seed (pad symbols removed) and is no longer
    than the larger of [max_length] and the length of the seed. *)
Theorem generate_sample_starts_with_seed (seed : string) (max_length : Z)
    (s : session) :
  choice_in_range →
  in_vocabulary tokens seed →
  seed ≠ EmptyString →
  ∃ (out : string) (s' : session),
    generate_sample seed max_length s = Ok (out, s')
    ∧ filter (fun c => c ≠ pad_token) (chars seed) `prefix_of` chars out
    ∧ (Z.of_nat (len out) ≤ Z.of_nat (len seed) `max` max_length)%Z.
Proof.
  intros Hchoice Hv Hne.
  destruct (generate_sample_spec fzero tokens embed_x get_h_next get_probas
              random_choice seed max_length s Hchoice Hv Hne)
    as (gen & gen_chars & s' & Hrun & Hlen & Hdec & _).
  eexists _, s'. split; [exact Hrun|]. rewrite chars_join, filter_app. split.
  - by apply prefix_app_r.
  - rewrite <- chars_length, chars_join, <- filter_app.
    etrans; [apply inj_le, length_filter|].
    apply (f_equal length) in Hdec. rewrite !length_fmap in Hdec.
    rewrite length_app, chars_length. lia.
Qed.

Lemma nth_middle_ids (ys : list nat) (y : nat) (rest : list Z) :
  nth (length ys) ((Z.of_nat <$> ys) ++ Z.of_nat y :: rest) 0%Z = Z.of_nat y.
Proof.
  rewrite nth_lookup, list_lookup_middle; [done|]. by rewrite length_fmap.
Qed.

(** Feeding ids one at a time from the zero state leaves the hidden state
    the trainer's recurrence has after the same ids. *)
Lemma replay_hidden_before (ys : list nat) (rest : list Z) :
  foldl feed_step (tf_zeros fzero 1) ys
  = [hidden_before ((Z.of_nat <$> ys) ++ rest) (length ys)].
Proof.
  revert rest. induction ys as [|y ys IH] using rev_ind; intros rest; [done|].
  rewrite foldl_app, fmap_app, <- (assoc_L (++)), length_app. cbn [foldl length].
  rewrite (IH ([Z.of_nat y] ++ rest)). rewrite Nat.add_1_r.
  unfold feed_step. rewrite rnn_one_step_rows. cbn [snd zip_with].
  change (Z.of_nat <$> [y]) with [Z.of_nat y]. cbn [app].
  by rewrite hidden_before_S, nth_middle_ids.
Qed.

Lemma replay_but_last (xs : list nat) :
  xs ≠ [] →
  foldl feed_step (tf_zeros fzero 1) (but_last xs)
  = [hidden_before (Z.of_nat <$> xs) (length xs - 1)].
Proof.
  destruct xs as [|x xs _] using rev_ind; [done|]. intros _.
  unfold but_last. rewrite length_app. cbn [length].
  replace (length xs + 1 - 1) with (length xs) by lia.
  rewrite take_app_length, fmap_app. apply replay_hidden_before.
Qed.

(** One iteration of the generation loop draws from the distribution the
    trainer's recurrence predicts at the last position. *)
Lemma generate_body_predicted (xs : list nat) (g : rng) (d a : nat) :
  xs ≠ [] →
  generate_body
    (xs, Session [hidden_before (Z.of_nat <$> xs) (length xs - 1)] g d) a
  = (let p := predicted_at (Z.of_nat <$> xs) (length xs - 1) in
     let ix := (random_choice g (n_tokens tokens) p).1 in
     Ok (xs ++ [ix],
         Session [hidden_before (Z.of_nat <$> xs ++ [ix]) (length (xs ++ [ix]) - 1)]
                 (random_choice g (n_tokens tokens) p).2 (S d))).
Proof.
  destruct xs as [|x xs _] using rev_ind; [done|]. intros _. cbv zeta.
  rewrite !length_app. cbn [length].
  replace (length xs + 1 - 1) with (length xs) by lia.
  replace (length xs + 1 + 1 - 1) with (S (length xs)) by lia.
  rewrite !fmap_app. change (Z.of_nat <$> [x]) with [Z.of_nat x].
  set (h := hidden_before _ (length xs)).
  destruct (random_choice g (n_tokens tokens)
              (predicted_at ((Z.of_nat <$> xs) ++ [Z.of_nat x]) (length xs)))
    as [ix g'] eqn:Hrc.
  cbn [fst snd].
  rewrite (generate_body_step tokens embed_x get_h_next get_probas
             random_choice (xs ++ [x]) _ a x ix
             (transition (Z.of_nat x) h).1 (transition (Z.of_nat x) h).2 g').
  - cbn [draws]. do 3 f_equal.
    change (Z.of_nat <$> [ix]) with [Z.of_nat ix].
    rewrite hidden_before_S.
    rewrite <- (assoc_L (++)). cbn [app].
    rewrite nth_middle_ids. do 3 f_equal. subst h.
    apply hidden_before_prefix.
    rewrite (cons_middle (Z.of_nat x)), !take_app_length'; [done|..];
      by rewrite length_fmap.
  - apply last_snoc.
  - cbn [h_t]. by rewrite rnn_one_step_rows.
  - cbn [np_random]. rewrite <- Hrc. do 2 f_equal.
    unfold predicted_at. subst h. by rewrite nth_middle_ids.
Qed.

Lemma autoregressive_sample_0 (xs : list nat) (g : rng) :
  autoregressive_sample 0 xs g = (xs, g).
Proof. reflexivity. Qed.

Lemma generate_samples_S (n : nat) (seed : string) (max_length : Z)
    (s : session) :
  generate_samples (S n) seed max_length s
  = ('(sample, s1) ← generate_sample seed max_length s;
     '(samples, s2) ← generate_samples n seed max_length s1;
     Ok (sample :: samples, s2)).
Proof. reflexivity. Qed.

Lemma autoregressive_sample_S (n : nat) (xs : list nat) (g : rng) :
  autoregressive_sample (S n) xs g
  = (let p := predicted_at (Z.of_nat <$> xs) (length xs - 1) in
     autoregressive_sample n
       (xs ++ [(random_choice g (n_tokens tokens) p).1])
       (random_choice g (n_tokens tokens) p).2).
Proof.
  simpl. by destruct (random_choice g (n_tokens tokens) _).
Qed.

Lemma generate_loop_autoregressive (n : nat) :
  ∀ (a : nat) (xs : list nat) (g : rng) (d : nat),
    xs ≠ [] →
    for_in (seq a n) generate_body
           (xs, Session [hidden_before (Z.of_nat <$> xs) (length xs - 1)] g d)
    = Ok ((autoregressive_sample n xs g).1,
          Session [hidden_before (Z.of_nat <$> (autoregressive_sample n xs g).1)
                                 (length (autoregressive_sample n xs g).1 - 1)]
                  (autoregressive_sample n xs g).2 (d + n)).
Proof.
  induction n as [|n IH]; intros a xs g d Hne.
  - rewrite autoregressive_sample_0. cbn [seq for_in fst snd].
    by rewrite Nat.add_0_r.
  - cbn [seq for_in]. rewrite (generate_body_predicted _ _ _ _ Hne).
    cbv zeta. rewrite result_bind_Ok, IH by (by destruct xs).
    rewrite autoregressive_sample_S. cbv zeta.
    by replace (S d + n) with (d + S n) by lia.
Qed.

(** A run of the sampler on a non-empty seed over the vocabulary, whatever
    its first symbol: the ids it ends with are the seed's ids followed by the
    draws of the generation loop, one per iteration. *)
Lemma generate_sample_run (seed : string) (max_length : Z) (s : session) :
  choice_in_range →
  in_vocabulary tokens seed →
  seed ≠ EmptyString →
  ∃ (generated : list nat) (gen_chars : list ascii) (s' : session),
    generate_sample seed max_length s
    = Ok (join (filter (fun c => c ≠ pad_token) (chars seed ++ gen_chars)), s')
    ∧ length generated = Z.to_nat (max_length - Z.of_nat (len seed))
    ∧ (fun i => tokens !! i) <$> generated = Some <$> gen_chars
    ∧ encode tokens seed ++ generated
      = (autoregressive_sample (Z.to_nat (max_length - Z.of_nat (len seed)))
                               (encode tokens seed) (np_random s)).1
    ∧ np_random s'
      = (autoregressive_sample (Z.to_nat (max_length - Z.of_nat (len seed)))
                               (encode tokens seed) (np_random s)).2
    ∧ draws s' = draws s + Z.to_nat (max_length - Z.of_nat (len seed)).
Proof.
  intros Hchoice Hv Hne. unfold generate_sample.
  rewrite (getitem_encode _ _ Hv), result_bind_Ok. cbv zeta.
  assert (encode tokens seed ≠ []) as Hids.
  { intros Hnil. pose proof (encode_length _ _ Hv) as Hlen.
    rewrite Hnil in Hlen. destruct seed; [done | simpl in Hlen; lia]. }
  assert (0 < n_tokens tokens) as Hpos.
  { pose proof (encode_in_range tokens seed) as Hr.
    destruct (encode tokens seed) as [|i ids]; [done|].
    apply Forall_cons in Hr as [Hi _]. lia. }
  rewrite (replay_but_last _ Hids).
  set (n := Z.to_nat (max_length - Z.of_nat (len seed))).
  destruct (generate_loop tokens embed_x get_h_next get_probas random_choice n
              Hchoice Hpos 0 (encode tokens seed)
              (Session [hidden_before (Z.of_nat <$> encode tokens seed)
                                      (length (encode tokens seed) - 1)]
                       (np_random s) (draws s)) Hids eq_refl)
    as (gen & s' & Hrun & Hlen & Hrange & _).
  rewrite generate_loop_autoregressive in Hrun by done.
  injection Hrun as Hxs _.
  rewrite generate_loop_autoregressive, result_bind_Ok by done.
  destruct (ids_in_range_decode tokens gen Hrange) as [gen_chars Hgen].
  rewrite (decode_without_pad_chars _ _ (chars seed ++ gen_chars)),
    result_bind_Ok.
  - eexists gen, gen_chars, _. split; [reflexivity|]. cbn [np_random draws].
    by rewrite Hxs.
  - by rewrite Hxs, !fmap_app, (encode_decode _ _ Hv), Hgen.
Qed.

(** C5 (amended).  [generate_sample] does not look at the first symbol of the
    seed: a non-empty seed over the vocabulary that does not begin with the
    start symbol is not refused.  As for a seed that begins with it, the call
    runs its [max_length - len(seed)] sampling iterations (that many draws,
    each from the distribution predicted at the last position of the sequence
    so far, appended after the seed's ids) and returns the seed followed by
    the decoded draws, with every pad symbol filtered out. *)
Theorem generate_sample_accepts_seed_without_start (seed : string)
    (max_length : Z) (s : session) :
  choice_in_range →
  in_vocabulary tokens seed →
  seed ≠ EmptyString →
  head (chars seed) ≠ Some start_token →
  ∃ (generated : list nat) (gen_chars : list ascii) (out : string)
    (s' : session),
    generate_sample seed max_length s = Ok (out, s')
    ∧ length generated = Z.to_nat (max_length - Z.of_nat (len seed))
    ∧ draws s' = draws s + Z.to_nat (max_length - Z.of_nat (len seed))
    ∧ encode tokens seed ++ generated
      = (autoregressive_sample (Z.to_nat (max_length - Z.of_nat (len seed)))
                               (encode tokens seed) (np_random s)).1
    ∧ np_random s'
      = (autoregressive_sample (Z.to_nat (max_length - Z.of_nat (len seed)))
                               (encode tokens seed) (np_random s)).2
    ∧ (fun i => tokens !! i) <$> generated = Some <$> gen_chars
    ∧ out = join (filter (fun c => c ≠ pad_token) (chars seed ++ gen_chars))
    ∧ pad_token ∉ chars out.
Proof.
  intros Hchoice Hv Hne _.
  destruct (generate_sample_run seed max_length s Hchoice Hv Hne)
    as (gen & gen_chars & s' & Hrun & Hlen & Hdec & Hids & Hrng & Hdraws).
  eexists gen, gen_chars, _, s'. split; [exact Hrun|].
  repeat split; [done..|].
  rewrite chars_join. intros [Hpad _]%list_elem_of_filter. done.
Qed.

(** X17.  The sampler and the trainer run the same model: for a non-empty
    seed over the vocabulary, the ids [generate_sample] ends with are the
    seed's ids followed by draws made, one after the other, from the
    distribution the unrolled recurrence of the trainer predicts at the last
    position of the sequence so far; the hidden state it leaves behind is the
    trainer's state before the last id, and the state it was called with
    plays no part. *)
Theorem generate_sample_is_autoregressive (seed : string) (max_length : Z)
    (s : session) :
  choice_in_range →
  in_vocabulary tokens seed →
  seed ≠ EmptyString →
  ∃ out : string,
    generate_sample seed max_length s
    = Ok (out,
          Session
            [hidden_before
               (Z.of_nat <$> (autoregressive_sample
                                (Z.to_nat (max_length - Z.of_nat (len seed)))
                                (encode tokens seed) (np_random s)).1)
               (length (autoregressive_sample
                          (Z.to_nat (max_length - Z.of_nat (len seed)))
                          (encode tokens seed) (np_random s)).1 - 1)]
            (autoregressive_sample
               (Z.to_nat (max_length - Z.of_nat (len seed)))
               (encode tokens seed) (np_random s)).2
            (draws s + Z.to_nat (max_length - Z.of_nat (len seed))))
    ∧ decode_without_pad tokens
        (autoregressive_sample (Z.to_nat (max_length - Z.of_nat (len seed)))
                               (encode tokens seed) (np_random s)).1
      = Ok (chars out).
Proof.
  intros Hchoice Hv Hne. unfold generate_sample.
  rewrite (getitem_encode _ _ Hv), result_bind_Ok. cbv zeta.
  assert (encode tokens seed ≠ []) as Hids.
  { intros Hnil. pose proof (encode_length _ _ Hv) as Hlen.
    rewrite Hnil in Hlen. destruct seed; [done | simpl in Hlen; lia]. }
  assert (0 < n_tokens tokens) as Hpos.
  { pose proof (encode_in_range tokens seed) as Hr.
    destruct (encode tokens seed) as [|i ids]; [done|].
    apply Forall_cons in Hr as [Hi _]. lia. }
  rewrite (replay_but_last _ Hids).
  set (n := Z.to_nat (max_length - Z.of_nat (len seed))).
  destruct (generate_loop tokens embed_x get_h_next get_probas random_choice n
              Hchoice Hpos 0 (encode tokens seed)
              (Session [hidden_before (Z.of_nat <$> encode tokens seed)
                                      (length (encode tokens seed) - 1)]
                       (np_random s) (draws s)) Hids eq_refl)
    as (gen & s' & Hrun & _ & Hrange & _).
  rewrite generate_loop_autoregressive in Hrun by done.
  injection Hrun as Hxs _.
  rewrite generate_loop_autoregressive, result_bind_Ok by done.
  destruct (ids_in_range_decode tokens (autoregressive_sample n
              (encode tokens seed) (np_random s)).1) as [cs Hcs].
  { rewrite Hxs. apply Forall_app. split; [apply encode_in_range | done]. }
  rewrite (decode_without_pad_chars _ _ cs Hcs), result_bind_Ok.
  eexists. split; [reflexivity|]. by rewrite chars_join.
Qed.

(** X18.  Repeated sampling (the list of line 357, the loops of lines
    331-340): [n] calls with a non-empty seed over the vocabulary give [n]
    strings; each starts with the seed (pad symbols removed), holds no pad
    symbol and is no longer than the larger of [max_length] and the length
    of the seed; together they make [n] times the draws of one call. *)
Theorem generate_samples_all_start_with_seed (n : nat) (seed : string)
    (max_length : Z) (s : session) :
  choice_in_range →
  in_vocabulary tokens seed →
  seed ≠ EmptyString →
  ∃ (samples : list string) (s' : session),
    generate_samples n seed max_length s = Ok (samples, s')
    ∧ length samples = n
    ∧ Forall (fun out =>
                (filter (fun c => c ≠ pad_token) (chars seed)
                   `prefix_of` chars out)
                ∧ (pad_token ∉ chars out)
                ∧ (Z.of_nat (len out) ≤ Z.of_nat (len seed) `max` max_length)%Z)
             samples
    ∧ draws s' = draws s + n * Z.to_nat (max_length - Z.of_nat (len seed)).
Proof.
  intros Hchoice Hv Hne. revert s. induction n as [|n IH]; intros s.
  - exists [], s. repeat split; [constructor | simpl; lia].
  - rewrite generate_samples_S.
    destruct (generate_sample_spec fzero tokens embed_x get_h_next get_probas
                random_choice seed max_length s Hchoice Hv Hne)
      as (gen & gen_chars & s1 & Hrun & Hlen & Hdec & Hdraws).
    rewrite Hrun, result_bind_Ok.
    destruct (IH s1) as (samples & s' & Hrest & Hlens & Hall & Hd).
    rewrite Hrest, result_bind_Ok.
    eexists _, s'. split; [reflexivity|]. split; [simpl; lia|].
    split; [|lia].
    constructor; [|done]. rewrite chars_join, filter_app.
    split; [by apply prefix_app_r|]. split.
    + rewrite <- filter_app. intros [Hpad _]%list_elem_of_filter. done.
    + rewrite <- chars_length, chars_join, <- filter_app.
      etrans; [apply inj_le, length_filter|].
      apply (f_equal length) in Hdec. rewrite !length_fmap in Hdec.
      rewrite length_app, chars_length. lia.
Qed.

End SamplerExtras.

Lemma generate_sample_accepts_seed_without_start_witness :
  choice_in_range Toy.random_choice ∧
  in_vocabulary [" "; "a"; "#"]%char "a" ∧
  "a" ≠ EmptyString ∧
  head (chars "a") ≠ Some start_token ∧
  ∃ (generated : list nat) (gen_chars : list ascii) (out : string)
    (s' : session),
    generate_sample 0%Z [" "; "a"; "#"]%char Toy.embed_x Toy.get_h_next
                    (Toy.get_probas 3) Toy.random_choice "a" 4
                    (Session [] 0 0)
    = Ok (out, s')
    ∧ length generated = Z.to_nat (4 - Z.of_nat (len "a"))
    ∧ draws s' = draws (Session (scalar:=Z) (rng:=nat) [] 0 0)
                 + Z.to_nat (4 - Z.of_nat (len "a")).
Proof.
  assert (in_vocabulary [" "; "a"; "#"]%char "a") as Hv by (repeat constructor).
  assert (head (chars "a") ≠ Some start_token) as Hhead by done.
  split; [exact toy_choice_in_range|]. split; [exact Hv|].
  split; [done|]. split; [exact Hhead|].
  destruct (generate_sample_accepts_seed_without_start 0%Z
              [" "; "a"; "#"]%char Toy.embed_x Toy.get_h_next
              (Toy.get_probas 3) Toy.random_choice "a" 4 (Session [] 0 0)
              toy_choice_in_range Hv ltac:(done) Hhead)
    as (gen & gen_chars & out & s' & Hrun & Hlen & Hdraws & _).
  exists gen, gen_chars, out, s'. exact (conj Hrun (conj Hlen Hdraws)).
Defined.

Lemma generate_sample_empty_seed_cases_witness :
  (0 < 3)%Z ∧
  generate_sample 0%Z [" "; "a"; "#"]%char Toy.embed_x Toy.get_h_next
                  (Toy.get_probas 3) Toy.random_choice EmptyString 3
                  (Session [] 0 0)
  = Raise IndexError.
Proof.
  split; [lia|].
  exact (proj1 (generate_sample_empty_seed_cases 0%Z [" "; "a"; "#"]%char
                  Toy.embed_x Toy.get_h_next (Toy.get_probas 3)
                  Toy.random_choice 3 (Session [] 0 0)) ltac:(lia)).
Defined.

Lemma generate_sample_no_budget_witness :
  in_vocabulary [" "; "a"; "#"]%char " a#" ∧
  (2 ≤ Z.of_nat (len " a#"))%Z ∧
  fst <$> generate_sample 0%Z [" "; "a"; "#"]%char Toy.embed_x Toy.get_h_next
            (Toy.get_probas 3) Toy.random_choice " a#" 2 (Session [] 5 0)
  = Ok (join (filter (fun c => c ≠ pad_token) (chars " a#"))).
Proof.
  assert (in_vocabulary [" "; "a"; "#"]%char " a#") as Hv by (repeat constructor).
  assert (2 ≤ Z.of_nat (len " a#"))%Z as Hml by (simpl; lia).
  split; [exact Hv|]. split; [exact Hml|].
  rewrite (generate_sample_no_budget 0%Z [" "; "a"; "#"]%char Toy.embed_x
             Toy.get_h_next (Toy.get_probas 3) Toy.random_choice " a#" 2
             (Session [] 5 0) Hv Hml).
  reflexivity.
Defined.

Lemma generate_sample_starts_with_seed_witness :
  choice_in_range Toy.random_choice ∧
  in_vocabulary [" "; "a"; "#"]%char " a" ∧
  " a" ≠ EmptyString ∧
  ∃ (out : string) (s' : session),
    generate_sample 0%Z [" "; "a"; "#"]%char Toy.embed_x Toy.get_h_next
                    (Toy.get_probas 3) Toy.random_choice " a" 6
                    (Session [] 0 0)
    = Ok (out, s')
    ∧ filter (fun c => c ≠ pad_token) (chars " a") `prefix_of` chars out.
Proof.
  assert (in_vocabulary [" "; "a"; "#"]%char " a") as Hv by (repeat constructor).
  split; [exact toy_choice_in_range|]. split; [exact Hv|]. split; [done|].
  destruct (generate_sample_starts_with_seed 0%Z [" "; "a"; "#"]%char
              Toy.embed_x Toy.get_h_next (Toy.get_probas 3) Toy.random_choice
              " a" 6 (Session [] 0 0) toy_choice_in_range Hv ltac:(done))
    as (out & s' & Hrun & Hprefix & _).
  exists out, s'. exact (conj Hrun Hprefix).
Defined.

Lemma generate_sample_is_autoregressive_witness :
  choice_in_range Toy.random_choice ∧
  in_vocabulary [" "; "a"; "#"]%char " a" ∧
  " a" ≠ EmptyString ∧
  ∃ out : string,
    decode_without_pad [" "; "a"; "#"]%char
      (autoregressive_sample 0%Z [" "; "a"; "#"]%char Toy.embed_x
         Toy.get_h_next (Toy.get_probas 3) Toy.random_choice
         (Z.to_nat (6 - Z.of_nat (len " a")))
         (encode [" "; "a"; "#"]%char " a")
         (np_random (Session (scalar:=Z) [] 0 0))).1
    = Ok (chars out).
Proof.
  assert (in_vocabulary [" "; "a"; "#"]%char " a") as Hv by (repeat constructor).
  split; [exact toy_choice_in_range|]. split; [exact Hv|]. split; [done|].
  destruct (generate_sample_is_autoregressive 0%Z [" "; "a"; "#"]%char
              Toy.embed_x Toy.get_h_next (Toy.get_probas 3) Toy.random_choice
              " a" 6 (Session [] 0 0) toy_choice_in_range Hv ltac:(done))
    as (out & _ & Hdec).
  exists out. exact Hdec.
Defined.

Lemma generate_samples_all_start_with_seed_witness :
  choice_in_range Toy.random_choice ∧
  in_vocabulary [" "; "a"; "#"]%char " a" ∧
  " a" ≠ EmptyString ∧
  ∃ (samples : list string) (s' : session),
    generate_samples 0%Z [" "; "a"; "#"]%char Toy.embed_x Toy.get_h_next
                     (Toy.get_probas 3) Toy.random_choice 25 " a" 6
                     (Session [] 0 0)
    = Ok (samples, s')
    ∧ length samples = 25.
Proof.
  assert (in_vocabulary [" "; "a"; "#"]%char " a") as Hv by (repeat constructor).
  split; [exact toy_choice_in_range|]. split; [exact Hv|]. split; [done|].
  destruct (generate_samples_all_start_with_seed 0%Z [" "; "a"; "#"]%char
              Toy.embed_x Toy.get_h_next (Toy.get_probas 3) Toy.random_choice
              25 " a" 6 (Session [] 0 0) toy_choice_in_range Hv ltac:(done))
    as (samples & s' & Hrun & Hlen & _).
  exists samples, s'. exact (conj Hrun Hlen).
Defined.

Example generate_samples_toy :
  fst <$> generate_samples 0%Z [" "; "a"; "#"]%char Toy.embed_x Toy.get_h_next
            (Toy.get_probas 3) Toy.random_choice 3 " a" 5 (Session [] 0 0)
  = Ok [" a a"; " a a"; " a a"].
Proof. vm_compute. reflexivity. Qed.

Example autoregressive_sample_toy :
  (autoregressive_sample 0%Z [" "; "a"; "#"]%char Toy.embed_x Toy.get_h_next
     (Toy.get_probas 3) Toy.random_choice 4 [0; 1] 1).1
  = [0; 1; 1; 2; 0; 1].
Proof. vm_compute. reflexivity. Qed.

(** ** Reading the corpus (lines 42-58) *)

Lemma split_chars_cons_piece (sep : ascii) (cs : list ascii) :
  ∃ piece pieces, split_chars sep cs = piece :: pieces.
Proof.
  induction cs as [|c cs (piece & pieces & IH)]; [by eexists _, _|].
  simpl. case_decide; [by eexists _, _|]. rewrite IH. by eexists _, _.
Qed.

Lemma split_chars_no_sep (sep : ascii) (cs : list ascii) :
  Forall (fun piece => sep ∉ piece) (split_chars sep cs).
Proof.
  induction cs as [|c cs IH].
  - repeat constructor. apply not_elem_of_nil.
  - simpl. case_decide as Hc.
    + constructor; [apply not_elem_of_nil | done].
    + destruct (split_chars sep cs) as [|piece pieces].
      * repeat constructor. by intros ->%list_elem_of_singleton.
      * apply Forall_cons in IH as [Hpiece Hpieces].
        constructor; [|done]. intros [->|?]%elem_of_cons; done.
Qed.

Lemma join_split_chars (sep : ascii) (cs : list ascii) :
  join_chars sep (split_chars sep cs) = cs.
Proof.
  induction cs as [|c cs IH]; [done|].
  simpl. destruct (split_chars_cons_piece sep cs) as (piece & pieces & Hs).
  rewrite Hs in *. rewrite <- IH. case_decide as Hc.
  - by subst c.
  - by destruct pieces.
Qed.

Lemma split_chars_length (sep : ascii) (cs : list ascii) :
  length (split_chars sep cs) = S (length (filter (fun c => c = sep) cs)).
Proof.
  induction cs as [|c cs IH]; [done|].
  simpl. destruct (split_chars_cons_piece sep cs) as (piece & pieces & Hs).
  rewrite Hs in *. case_decide as Hc.
  - rewrite filter_cons_True by done. simpl in *. lia.
  - rewrite filter_cons_False by done. simpl in *. lia.
Qed.

(** X19.  Whatever the file holds, [read_names] returns at least one name;
    every name is the start symbol followed by a piece of the file without a
    newline; there is one name more than there are newlines in the file
    without its last character; joining the pieces with newlines gives that
    text back; and [MAX_LENGTH = max(map(len, names))] is defined and at
    least [1]. *)
Theorem read_names_lines (content : string) :
  read_names content ≠ []
  ∧ Forall (fun name =>
              ∃ line, name = String start_token line ∧ newline ∉ chars line)
           (read_names content)
  ∧ length (read_names content)
    = S (length (filter (fun c => c = newline) (but_last (chars content))))
  ∧ join_chars newline ((fun name => drop 1 (chars name)) <$> read_names content)
    = but_last (chars content)
  ∧ py_max (len <$> read_names content) = Ok (longest (read_names content))
  ∧ 1 ≤ longest (read_names content).
Proof.
  unfold read_names, py_split, with_start_token. cbv zeta.
  rewrite chars_join.
  set (cs := but_last (chars content)).
  destruct (split_chars_cons_piece newline cs) as (piece & pieces & Hs).
  assert (∀ l : list (list ascii),
            (fun name => drop 1 (chars name)) <$> (String start_token <$> (join <$> l))
            = l) as Hstrip.
  { intros l. rewrite <- !list_fmap_compose.
    rewrite <- (list_fmap_id l) at 2. apply list_fmap_ext. intros _ p _.
    simpl. apply chars_join. }
  split; [by rewrite Hs|]. split; [|split; [|split; [|split]]].
  - rewrite <- list_fmap_compose. apply Forall_fmap.
    eapply Forall_impl; [apply (split_chars_no_sep newline cs)|].
    intros p Hp. simpl. eexists. split; [reflexivity|]. by rewrite chars_join.
  - by rewrite !length_fmap, split_chars_length.
  - rewrite Hstrip. apply join_split_chars.
  - by rewrite Hs.
  - rewrite Hs. etrans; [|apply (len_le_longest _ (String start_token (join piece)))].
    + simpl. lia.
    + rewrite !fmap_cons. apply elem_of_cons. by left.
Qed.

(** X20.  [f.read()[:-1]] drops the last character of the file whatever it
    is: the names do not depend on it, so a file that does not end with a
    newline loses the last symbol of its last name. *)
Theorem read_names_ignores_last_character (cs : list ascii) (c c' : ascii) :
  read_names (join (cs ++ [c])) = read_names (join (cs ++ [c']))
  ∧ read_names (join (cs ++ [c]))
    = with_start_token (py_split newline (join cs)).
Proof.
  assert (∀ x, read_names (join (cs ++ [x]))
               = with_start_token (py_split newline (join cs))) as H.
  { intros x. unfold read_names. cbv zeta. rewrite chars_join.
    unfold but_last. rewrite length_app. cbn [length].
    replace (length cs + 1 - 1) with (length cs) by lia.
    by rewrite take_app_length. }
  by rewrite !H.
Qed.

Example read_names_with_trailing_newline :
  read_names (join (chars "Al" ++ [newline] ++ chars "Bo" ++ [newline]))
  = [" Al"; " Bo"].
Proof. vm_compute. reflexivity. Qed.

Example read_names_without_trailing_newline :
  read_names (join (chars "Al" ++ [newline] ++ chars "Bo")) = [" Al"; " B"].
Proof. vm_compute. reflexivity. Qed.

(** ** The training loop (lines 267-276) *)

Section TrainingLoopFacts.

Context {scalar weights prng : Type}.
Variables fzero fone : scalar.
Variable lines : list string.
Variable tokens : list ascii.
Variable embed_x : weights → Z → list scalar.
Variables get_h_next get_probas : weights → list scalar → list scalar.
Variable categorical_crossentropy : list scalar → list scalar → scalar.
Variable tf_reduce_mean : list scalar → scalar.
Variable optimize : weights → matrix → weights.
Variable random_sample : prng → list string → nat → list string * prng.

Local Abbreviation names := (with_start_token lines).
Local Abbreviation MAX_LENGTH := (longest (with_start_token lines)).
Local Abbreviation training_body :=
  (training_body fzero fone names tokens MAX_LENGTH embed_x get_h_next
                 get_probas categorical_crossentropy tf_reduce_mean optimize
                 random_sample).
Local Abbreviation training_loop :=
  (training_loop fzero fone names tokens MAX_LENGTH embed_x get_h_next
                 get_probas categorical_crossentropy tf_reduce_mean optimize
                 random_sample).
Local Abbreviation training_state := (@training_state scalar weights prng).

Lemma training_body_runs (st : training_state) (i : nat) :
  sample_from_population random_sample →
  is_vocabulary_of names tokens →
  batch_size ≤ length names →
  ∃ loss_i w g,
    training_body st i = Ok (TrainingState w (history st ++ [loss_i]) g).
Proof.
  intros Hsample Hvoc Hsize. unfold training_body, py_sample.
  rewrite decide_True by done.
  destruct (Hsample (py_random st) names batch_size Hsize) as [_ Hchosen].
  destruct (random_sample (py_random st) names batch_size) as [chosen g].
  rewrite result_bind_Ok. cbn [fst] in Hchosen.
  assert (lines ≠ []) as Hne.
  { intros ->. unfold batch_size in Hsize. simpl in Hsize. lia. }
  destruct (training_batch_runs fzero fone lines tokens chosen
              (embed_x (variables st)) (get_h_next (variables st))
              (get_probas (variables st)) categorical_crossentropy
              tf_reduce_mean Hvoc Hne Hchosen)
    as (batch & Hm & _ & _ & _ & Hstep).
  rewrite Hm, result_bind_Ok. cbv zeta. rewrite Hstep, result_bind_Ok.
  by eexists _, _, _.
Qed.

Lemma training_iterations_run (n : nat) :
  sample_from_population random_sample →
  is_vocabulary_of names tokens →
  batch_size ≤ length names →
  ∀ (a : nat) (st : training_state),
    ∃ st', for_in (seq a n) training_body st = Ok st'
           ∧ length (history st') = length (history st) + n
           ∧ history st `prefix_of` history st'.
Proof.
  intros Hsample Hvoc Hsize. induction n as [|n IH]; intros a st.
  - exists st. split; [done|]. split; [lia | done].
  - cbn [seq for_in].
    destruct (training_body_runs st a Hsample Hvoc Hsize)
      as (loss_i & w & g & Hbody).
    rewrite Hbody, result_bind_Ok.
    destruct (IH (S a) (TrainingState w (history st ++ [loss_i]) g))
      as (st' & Hrun & Hlen & Hpre).
    exists st'. split; [exact Hrun|]. cbn [history] in *.
    rewrite length_app in Hlen. simpl in Hlen. split; [lia|].
    etrans; [|exact Hpre]. by apply prefix_app_r.
Qed.

(** X21.  With fewer than [batch_size = 32] names in the corpus the loop
    stops in its first iteration: [sample(names, batch_size)] raises a
    [ValueError] before any batch is built. *)
Theorem training_loop_small_corpus (iterations : nat) (w0 : weights) (g : prng) :
  length names < batch_size →
  0 < iterations →
  training_loop iterations w0 g = Raise ValueError.
Proof.
  intros Hsmall Hiter. unfold training_loop.
  destruct iterations as [|n]; [lia|].
  cbn [seq for_in].
  assert (∀ st i, training_body st i = Raise ValueError) as Hbody.
  { intros st i. unfold training_body, py_sample.
    by rewrite decide_False by lia. }
  by rewrite Hbody.
Qed.

(** X22.  With at least [batch_size] names the loop runs all its iterations
    without an exception, whatever the optimizer does to the variables: each
    iteration samples names of the corpus, pads them to [MAX_LENGTH], gets a
    loss from the graph and appends it, so [history] ends with one loss per
    iteration. *)
Theorem training_loop_completes (iterations : nat) (w0 : weights) (g : prng) :
  sample_from_population random_sample →
  is_vocabulary_of names tokens →
  batch_size ≤ length names →
  ∃ st', training_loop iterations w0 g = Ok st'
         ∧ length (history st') = iterations.
Proof.
  intros Hsample Hvoc Hsize. unfold training_loop.
  destruct (training_iterations_run iterations Hsample Hvoc Hsize 0
              (TrainingState w0 [] g)) as (st' & Hrun & Hlen & _).
  exists st'. split; [exact Hrun|]. cbn [history length] in Hlen. lia.
Qed.

End TrainingLoopFacts.

Lemma first_k_sample_from_population : sample_from_population first_k_sample.
Proof.
  intros g population k Hk. unfold first_k_sample. cbn [fst]. split.
  - rewrite length_take. lia.
  - apply Forall_forall. intros x Hx.
    apply elem_of_take in Hx as (i & Hi & _). by eapply list_elem_of_lookup_2.
Qed.

Lemma training_loop_small_corpus_witness :
  length (with_start_token ["Al"; "Bo"]) < batch_size ∧
  0 < 1000 ∧
  training_loop 0%Z 1%Z (with_start_token ["Al"; "Bo"])
    (tokens_in_order (with_start_token ["Al"; "Bo"]))
    (longest (with_start_token ["Al"; "Bo"]))
    (fun _ : nat => Toy.embed_x) (fun _ : nat => Toy.get_h_next)
    (fun _ : nat => Toy.get_probas 5) Toy.categorical_crossentropy
    Toy.tf_reduce_mean (fun (w : nat) _ => S w) first_k_sample 1000 0 0
  = Raise ValueError.
Proof.
  assert (length (with_start_token ["Al"; "Bo"]) < batch_size) as Hsmall.
  { apply (bool_decide_unpack _). vm_compute. exact I. }
  split; [exact Hsmall|]. split; [lia|].
  exact (training_loop_small_corpus 0%Z 1%Z ["Al"; "Bo"]
           (tokens_in_order (with_start_token ["Al"; "Bo"]))
           (fun _ : nat => Toy.embed_x) (fun _ : nat => Toy.get_h_next)
           (fun _ : nat => Toy.get_probas 5) Toy.categorical_crossentropy
           Toy.tf_reduce_mean (fun (w : nat) _ => S w) first_k_sample 1000 0 0
           Hsmall ltac:(lia)).
Defined.

Lemma training_loop_completes_witness :
  sample_from_population first_k_sample ∧
  is_vocabulary_of (with_start_token Toy.lines) Toy.tokens ∧
  batch_size ≤ length (with_start_token Toy.lines) ∧
  ∃ st',
    training_loop 0%Z 1%Z (with_start_token Toy.lines) Toy.tokens
      (longest (with_start_token Toy.lines))
      (fun _ : nat => Toy.embed_x) (fun _ : nat => Toy.get_h_next)
      (fun _ : nat => Toy.get_probas 53) Toy.categorical_crossentropy
      Toy.tf_reduce_mean (fun (w : nat) _ => S w) first_k_sample 1000 0 0
    = Ok st'
    ∧ length (history st') = 1000.
Proof.
  assert (batch_size ≤ length (with_start_token Toy.lines)) as Hsize.
  { apply (bool_decide_unpack _). vm_compute. exact I. }
  split; [exact first_k_sample_from_population|].
  split; [apply tokens_in_order_is_vocabulary|]. split; [exact Hsize|].
  exact (training_loop_completes 0%Z 1%Z Toy.lines Toy.tokens
           (fun _ : nat => Toy.embed_x) (fun _ : nat => Toy.get_h_next)
           (fun _ : nat => Toy.get_probas 53) Toy.categorical_crossentropy
           Toy.tf_reduce_mean (fun (w : nat) _ => S w) first_k_sample 1000 0 0
           first_k_sample_from_population (tokens_in_order_is_vocabulary _)
           Hsize).
Defined.

(** ** Calls made by the notebook cells *)




Lemma max_list_bound (ns : list nat) (n : nat) :
  Forall (fun x => x ≤ n) ns → max_list ns ≤ n.
Proof. induction 1; simpl; lia. Qed.

Lemma py_every_subset {A} (k : nat) (l : list A) (x : A) :
  x ∈ py_every k l → x ∈ l.
Proof.
  unfold py_every. intros (i & _ & Hi)%list_elem_of_omap.
  by eapply list_elem_of_lookup_2.
Qed.

Lemma py_every_head {A} (k : nat) (l : list A) :
  head (py_every k l) = head l.
Proof.
  unfold py_every. destruct l as [|x l]; [done|].
  cbn [length seq omap list_omap]. by rewrite Nat.mul_0_l.
Qed.

(** X24.  The demonstration cell [to_matrix(names[::2000])] (line 119), for
    any positive step: on a non-empty corpus it returns a rectangular matrix
    with one row per selected name, at least one row, and no more columns
    than [MAX_LENGTH]. *)
Theorem to_matrix_of_every_kth_name (lines : list string) (tokens : list ascii)
    (k : nat) :
  0 < k →
  is_vocabulary_of (with_start_token lines) tokens →
  lines ≠ [] →
  ∃ m, to_matrix tokens (py_every k (with_start_token lines)) None 0 = Ok m
       ∧ nrows m = length (py_every k (with_start_token lines))
       ∧ 0 < nrows m
       ∧ ncols m ≤ longest (with_start_token lines)
       ∧ wf_matrix m.
Proof.
  intros _ Hvoc Hne.
  set (names := with_start_token lines).
  assert (Forall (fun name => name ∈ names) (py_every k names)) as Hsub.
  { apply Forall_forall. intros name. apply py_every_subset. }
  pose proof (corpus_names_in_vocabulary _ _ _ Hvoc Hsub) as Hv.
  assert (py_every k names ≠ []) as Hsel.
  { intros Hnil. pose proof (py_every_head k names) as Hh.
    rewrite Hnil in Hh. subst names. by destruct lines. }
  assert (Forall (fun name => len name ≤ longest (py_every k names))
                 (py_every k names)) as Hfit.
  { apply Forall_forall. intros name. apply len_le_longest. }
  rewrite to_matrix_default, (to_matrix_rows_Ok _ _ _ _ Hv Hfit) by done.
  eexists. split; [reflexivity|]. unfold nrows, wf_matrix. cbn [mrows ncols].
  rewrite length_fmap. split; [done|]. split; [|split].
  - destruct (py_every k names); [done | simpl; lia].
  - unfold longest at 1. apply max_list_bound.
    apply Forall_fmap. eapply Forall_impl; [exact Hsub|].
    intros name Hname. simpl. by apply len_le_longest.
  - apply Forall_fmap, Forall_forall. intros name Hname. simpl.
    assert (in_vocabulary tokens name) as Hvn by (by eapply Forall_forall in Hv).
    assert (len name ≤ longest (py_every k names)) as Hle
      by (by eapply Forall_forall in Hfit).
    rewrite length_app, length_fmap, length_replicate.
    rewrite (encode_length _ _ Hvn). lia.
Qed.

Lemma to_matrix_of_every_kth_name_witness :
  0 < 10 ∧
  is_vocabulary_of (with_start_token Toy.lines) Toy.tokens ∧
  Toy.lines ≠ [] ∧
  ∃ m, to_matrix Toy.tokens (py_every 10 (with_start_token Toy.lines)) None 0
       = Ok m
       ∧ nrows m = length (py_every 10 (with_start_token Toy.lines)).
Proof.
  split; [lia|].
  split; [apply tokens_in_order_is_vocabulary|]. split; [done|].
  destruct (to_matrix_of_every_kth_name Toy.lines Toy.tokens 10 ltac:(lia)
              (tokens_in_order_is_vocabulary _) ltac:(done))
    as (m & Hm & Hrows & _).
  exists m. exact (conj Hm Hrows).
Defined.

Example py_every_demo : py_every 3 [0; 1; 2; 3; 4; 5; 6] = [0; 3; 6].
Proof. reflexivity. Qed.

(** ** Width and padding of the matrix *)

Lemma chars_append (s1 s2 : string) : chars (s1 +:+ s2) = chars s1 ++ chars s2.
Proof.
  unfold chars. induction s1 as [|c s1 IH]; [done|]. simpl. by rewrite IH.
Qed.

Section PaddingFacts.

Variable tokens : list ascii.
Local Abbreviation in_vocabulary := (in_vocabulary tokens).
Local Abbreviation to_matrix := (to_matrix tokens).
Local Abbreviation encode := (encode tokens).

(** X25.  With [max_len] omitted the width is tight: some name of the list
    fills its row completely, so that row holds its ids and no padding. *)
Theorem to_matrix_default_width_is_tight (names : list string) (pad : Z) :
  names ≠ [] →
  Forall in_vocabulary names →
  ∃ m r name,
    to_matrix names None pad = Ok m
    ∧ names !! r = Some name
    ∧ len name = ncols m
    ∧ mrows m !! r = Some (Z.of_nat <$> encode name).
Proof.
  intros Hne Hv.
  assert (Forall (fun name => len name ≤ longest names) names) as Hfit.
  { apply Forall_forall. intros name. apply len_le_longest. }
  assert (longest names ∈ len <$> names) as Hmax.
  { apply max_list_elem_of. by destruct names. }
  apply list_elem_of_fmap in Hmax as (name & Hlen & Hin).
  apply list_elem_of_lookup_1 in Hin as [r Hr].
  rewrite to_matrix_default, (to_matrix_rows_Ok _ _ _ _ Hv Hfit) by done.
  eexists _, r, name. split; [reflexivity|]. cbn [ncols mrows].
  split; [done|]. split; [done|].
  rewrite list_lookup_fmap, Hr. simpl.
  by rewrite Hlen, Nat.sub_diag, app_nil_r.
Qed.

(** X26.  Padding cannot be told from the symbol whose id is [0]: with the
    default [pad = 0], a name and the same name followed by [tokens[0]] get
    the same row whenever the longer one still fits, so the two batches are
    equal. *)
Theorem trailing_first_token_looks_like_padding (pre rest : list string)
    (name : string) (c : ascii) (max_len : nat) :
  NoDup tokens →
  tokens !! 0 = Some c →
  Forall (fun name => in_vocabulary name ∧ len name ≤ max_len) (pre ++ name :: rest) →
  len name < max_len →
  to_matrix (pre ++ (name +:+ String c EmptyString) :: rest)
            (Some (Z.of_nat max_len)) 0
  = to_matrix (pre ++ name :: rest) (Some (Z.of_nat max_len)) 0
  ∧ ∃ m, to_matrix (pre ++ name :: rest) (Some (Z.of_nat max_len)) 0 = Ok m.
Proof.
  intros Hnodup Hc Hall Hshort.
  assert (c ∈ tokens) as Hcin by (by eapply list_elem_of_lookup_2).
  assert (token_to_id tokens !! c = Some 0) as Hid.
  { destruct (token_to_id_elem tokens c Hcin) as (j & Hj & Htj).
    by rewrite (NoDup_lookup _ _ _ _ Hnodup Hc Htj). }
  apply Forall_app in Hall as [Hpre Hrest].
  apply Forall_cons in Hrest as [[Hvn Hle] Hrest].
  set (name' := name +:+ String c EmptyString).
  assert (chars name' = chars name ++ [c]) as Hchars
    by apply chars_append.
  assert (len name' = S (len name)) as Hlen'.
  { rewrite <- !chars_length, Hchars, length_app. simpl. lia. }
  assert (in_vocabulary name') as Hvn'.
  { unfold in_vocabulary. rewrite Hchars. apply Forall_app. split; [done|].
    by constructor. }
  assert (encode name' = encode name ++ [0]) as Henc.
  { unfold encode. rewrite Hchars, omap_app. cbn [omap list_omap].
    by rewrite Hid. }
  assert (Forall in_vocabulary pre ∧ Forall (fun n => len n ≤ max_len) pre)
    as [Hvpre Hfpre] by (by apply Forall_and).
  assert (Forall in_vocabulary rest ∧ Forall (fun n => len n ≤ max_len) rest)
    as [Hvrest Hfrest] by (by apply Forall_and).
  assert (Forall in_vocabulary (pre ++ name' :: rest)) as Hv1
    by (apply Forall_app; split; [|constructor]; done).
  assert (Forall (fun n => len n ≤ max_len) (pre ++ name' :: rest)) as Hf1
    by (apply Forall_app; split; [|constructor]; [done | lia | done]).
  assert (Forall in_vocabulary (pre ++ name :: rest)) as Hv2
    by (apply Forall_app; split; [|constructor]; done).
  assert (Forall (fun n => len n ≤ max_len) (pre ++ name :: rest)) as Hf2
    by (apply Forall_app; split; [|constructor]; done).
  rewrite !to_matrix_explicit, Nat2Z.id by lia.
  rewrite (to_matrix_rows_Ok _ _ _ _ Hv1 Hf1), (to_matrix_rows_Ok _ _ _ _ Hv2 Hf2).
  split; [|by eexists].
  rewrite !result_bind_Ok, !fmap_app, !fmap_cons. do 4 f_equal.
  rewrite Henc, Hlen', fmap_app, <- (assoc_L (++)). f_equal.
  change (Z.of_nat <$> [0]) with [0%Z]. cbn [app].
  replace (max_len - len name) with (S (max_len - S (len name))) by lia.
  done.
Qed.

End PaddingFacts.

Lemma to_matrix_default_width_is_tight_witness :
  [" ab"; " a"] ≠ [] ∧
  Forall (in_vocabulary [" "; "a"; "b"]%char) [" ab"; " a"] ∧
  ∃ m r name,
    to_matrix [" "; "a"; "b"]%char [" ab"; " a"] None 7 = Ok m
    ∧ [" ab"; " a"] !! r = Some name
    ∧ len name = ncols m.
Proof.
  assert (Forall (in_vocabulary [" "; "a"; "b"]%char) [" ab"; " a"]) as Hv
    by (repeat constructor).
  split; [done|]. split; [exact Hv|].
  destruct (to_matrix_default_width_is_tight [" "; "a"; "b"]%char
              [" ab"; " a"] 7 ltac:(done) Hv)
    as (m & r & name & Hm & Hr & Hlen & _).
  exists m, r, name. exact (conj Hm (conj Hr Hlen)).
Defined.

Lemma trailing_first_token_looks_like_padding_witness :
  NoDup ["a"; "b"]%char ∧
  ["a"; "b"]%char !! 0 = Some "a"%char ∧
  Forall (fun name => in_vocabulary ["a"; "b"]%char name ∧ len name ≤ 3)
         ([] ++ "b" :: ["ab"]) ∧
  len "b" < 3 ∧
  to_matrix ["a"; "b"]%char ([] ++ ("b" +:+ String "a"%char EmptyString) :: ["ab"])
            (Some (Z.of_nat 3)) 0
  = to_matrix ["a"; "b"]%char ([] ++ "b" :: ["ab"]) (Some (Z.of_nat 3)) 0.
Proof.
  assert (NoDup ["a"; "b"]%char) as Hnodup.
  { apply (bool_decide_unpack _). vm_compute. exact I. }
  assert (Forall (fun name => in_vocabulary ["a"; "b"]%char name ∧ len name ≤ 3)
                 ([] ++ "b" :: ["ab"])) as Hall.
  { repeat constructor. }
  assert (len "b" < 3) as Hshort by (simpl; lia).
  split; [exact Hnodup|]. split; [reflexivity|]. split; [exact Hall|].
  split; [exact Hshort|].
  exact (proj1 (trailing_first_token_looks_like_padding ["a"; "b"]%char []
                  ["ab"] "b" "a"%char 3 Hnodup eq_refl Hall Hshort)).
Defined.

Example padding_is_ambiguous :
  to_matrix ["a"; "b"]%char ["ba"] (Some 3%Z) 0
  = Ok (Matrix 3 [[1; 0; 0]]%Z)
  ∧ to_matrix ["a"; "b"]%char ["b"] (Some 3%Z) 0
    = Ok (Matrix 3 [[1; 0; 0]]%Z).
Proof. split; vm_compute; reflexivity. Qed.

(** ** Symbols the sampler does not know *)

Section SamplerErrors.

Context {scalar rng : Type}.
Variable fzero : scalar.
Variable tokens : list ascii.
Variable embed_x : Z → list scalar.
Variables get_h_next get_probas : list scalar → list scalar.
Variable random_choice : rng → nat → list scalar → nat * rng.

Local Abbreviation generate_sample :=
  (generate_sample fzero tokens embed_x get_h_next get_probas random_choice).
Local Abbreviation generate_samples :=
  (generate_samples fzero tokens embed_x get_h_next get_probas random_choice).

(** X13.  A seed with a symbol that is not in the vocabulary is a [KeyError],
    whatever [max_length] and the state are and before anything is drawn; a
    loop or list of such calls (as [generate_sample(' Trump')] on a corpus
    without one of these letters) stops at its first call. *)
Theorem generate_sample_symbol_not_in_vocabulary (n : nat) (seed : string)
    (max_length : Z) (s : session) :
  ¬ in_vocabulary tokens seed →
  generate_sample seed max_length s = Raise KeyError
  ∧ generate_samples (S n) seed max_length s = Raise KeyError.
Proof.
  intros Hnv.
  assert (generate_sample seed max_length s = Raise KeyError) as Hone.
  { unfold generate_sample. by rewrite (getitem_absent _ _ Hnv). }
  split; [exact Hone|].
  change (generate_samples (S n) seed max_length s)
    with ('(sample, s1) ← generate_sample seed max_length s;
          '(samples, s2) ← generate_samples n seed max_length s1;
          Ok (sample :: samples, s2)).
  by rewrite Hone.
Qed.

End SamplerErrors.

Lemma generate_sample_symbol_not_in_vocabulary_witness :
  ¬ in_vocabulary [" "; "a"; "#"]%char " Trump" ∧
  generate_sample 0%Z [" "; "a"; "#"]%char Toy.embed_x Toy.get_h_next
                  (Toy.get_probas 3) Toy.random_choice " Trump" 9
                  (Session [] 0 0)
  = Raise KeyError.
Proof.
  assert (¬ in_vocabulary [" "; "a"; "#"]%char " Trump") as Hnv.
  { apply (bool_decide_unpack _). vm_compute. exact I. }
  split; [exact Hnv|].
  exact (proj1 (generate_sample_symbol_not_in_vocabulary 0%Z [" "; "a"; "#"]%char
                  Toy.embed_x Toy.get_h_next (Toy.get_probas 3)
                  Toy.random_choice 9 " Trump" 9 (Session [] 0 0) Hnv)).
Defined.
